(** * OpenCode server process manager: model and verified properties

    Shallow embedding of the server supervisor of the Telegram mirror
    (the second module held in [src/message-formatting.ts], lines 172-341:
    [getOpenPort], [waitForServer], [startServer], [getServer],
    [stopServer]).

    The module is asynchronous JavaScript.  Each [async] function is
    embedded as a tree of operations ([Async]): synchronous operations
    act on the module's store at once, an [await] on the platform
    (socket, HTTP request, timer) suspends the function until the event
    loop delivers the answer.  The event loop itself is the function
    [step] on [World]s.

    After the supervisor come the pure functions around it: the
    formatting of message parts (the first module of the same file, lines
    1-169: [escapeMarkdown], [getToolSummaryText], [formatTodoList],
    [formatPart]), the loading of the configuration ([loadConfig] of
    [src/config.ts]) and the store of updates of the mock server
    ([getNextUpdates] and the [inject] action of [test/mock-server.ts]). *)

From Stdlib Require Import ZArith String List Bool Lia DecimalString.
From Stdlib Require Import Sorting.Sorted Sorting.Permutation.
From stdpp Require Import base option list gmap strings.

Import ListNotations.
Local Open Scope string_scope.
Local Open Scope Z_scope.

(** ** The JavaScript built-ins the module relies on

    [number] is the language's numeric type.  The module only converts
    strings to numbers ([Number(s)]), tests them ([Number.isNaN], and
    the truthiness test, which fails exactly on NaN and on zero) and
    prints them ([n.toString()], also used by template literals). *)

Class JSRuntime : Type := {
  number : Type;
  Number : string -> number;
  Number_isNaN : number -> bool;
  is_zero : number -> bool;
  toString : number -> string;
  (** [Number("")] is [0]. *)
  Number_empty : is_zero (Number "") = true
}.

(** Truthiness of a string: every string but the empty one. *)
Definition truthy_string (s : string) : bool :=
  negb (String.eqb s "").

(** ** JSON values, as far as the injected configuration needs them *)

#[local] Unset Elimination Schemes.
Inductive json : Type :=
| JString (s : string)
| JBool (b : bool)
| JObject (members : list (string * json)).

#[local] Set Elimination Schemes.

Definition dquote : string := String (Ascii.ascii_of_nat 34) EmptyString.

(** [JSON.stringify] on strings without characters that need escaping
    (all keys and values of the configuration are such). *)
Definition quote_json (s : string) : string := dquote ++ s ++ dquote.

Fixpoint JSON_stringify (j : json) : string :=
  match j with
  | JString s => quote_json s
  | JBool true => "true"
  | JBool false => "false"
  | JObject members =>
      let fix go (ms : list (string * json)) : string :=
        match ms with
        | [] => ""
        | [(k, v)] => quote_json k ++ ":" ++ JSON_stringify v
        | (k, v) :: rest => quote_json k ++ ":" ++ JSON_stringify v ++ "," ++ go rest
        end in
      "{" ++ go members ++ "}"
  end.

Section Supervisor.

Context `{RT : JSRuntime}.

(** Truthiness of a number. *)
Definition truthy_number (n : number) : bool :=
  negb (is_zero n) && negb (Number_isNaN n).

(** ** Data model *)

(** Child processes are identified by their position in the table of
    processes spawned so far. *)
Definition pid : Type := nat.

Inductive Sdk : Type := SdkV1 | SdkV2.

(** The two API clients; each is bound to a base URL and uses a fetch
    with the request timeout switched off. *)
Record Client : Type := mkClient {
  sdk : Sdk;
  baseUrl : string;
  fetchTimeout : bool
}.

Definition createOpencodeClient (url : string) : Client :=
  {| sdk := SdkV1; baseUrl := url; fetchTimeout := false |}.

Definition createOpencodeClientV2 (url : string) : Client :=
  {| sdk := SdkV2; baseUrl := url; fetchTimeout := false |}.

(** [interface OpenCodeServer]. *)
Record OpenCodeServer : Type := mkServer {
  process : pid;
  client : Client;
  clientV2 : Client;
  port : number;
  directory : string
}.

(** What the module knows of a [ChildProcess]: how it was spawned, the
    [killed] flag of the handle, whether its exit was reported, and the
    directory captured by the exit listener registered on it. *)
Record ChildProcess : Type := mkChild {
  spawnfile : string;
  spawnargs : list string;
  cwd : string;
  childEnv : gmap string string;
  killed : bool;
  exited : bool;
  exitListener : option string
}.

(** The [Error]s the module throws, one constructor per message. *)
Inductive Error : Type :=
| DirectoryNotAccessible (dir : string)
    (* `Directory not accessible: ${directory}` *)
| FailedToGetPort
    (* "Failed to get port" *)
| SocketError (e : string)
    (* the error of the socket's "error" event *)
| ServerDidNotStart (p : number) (maxAttempts : nat).
    (* `Server did not start on port ${port} after ${maxAttempts} seconds` *)

(** ** Operations *)

(** What [srv.address()] returns. *)
Inductive Address : Type :=
| AddrNull
| AddrPipe (path : string)
| AddrInfo (p : number).

(** How [srv.listen(0, cb)] ends: the callback runs, or "error" fires. *)
Inductive ListenOutcome : Type :=
| Listening (a : Address)
| ListenFailed (e : string).

(** How a [fetch] ends: a response, or a rejection (no listener, abort
    by the timeout signal). *)
Inductive FetchOutcome : Type :=
| Response (status : Z)
| FetchRejected.

Inductive LogValue : Type :=
| LStr (s : string)
| LNum (n : number)
| LCode (c : option Z)
| LErr (e : Error).

(** Operations that complete synchronously. *)
Inductive SyncOp : Type :=
| ReadServer                       (* the module variable [server] *)
| WriteServer (s : option OpenCodeServer)
| Killed (p : pid)                 (* [p.killed] *)
| AccessSync (dir : string)        (* [fs.accessSync(dir, R_OK | X_OK)] *)
| ProcessEnv                       (* [process.env] *)
| Spawn (file : string) (args : list string) (dir : string)
        (env : gmap string string)
| OnExit (p : pid) (dir : string)  (* [p.on("exit", ...)] *)
| Kill (p : pid)                   (* [p.kill()] *)
| Log (level msg : string) (data : list (string * LogValue)).

Definition sync_result (op : SyncOp) : Type :=
  match op with
  | ReadServer => option OpenCodeServer
  | WriteServer _ => unit
  | Killed _ => bool
  | AccessSync _ => bool            (* [false]: the call throws *)
  | ProcessEnv => gmap string string
  | Spawn _ _ _ _ => pid
  | OnExit _ _ => unit
  | Kill _ => bool
  | Log _ _ _ => unit
  end.

(** Operations the caller awaits; the function is suspended until the
    platform answers. *)
Inductive AsyncOp : Type :=
| Listen (p : Z)                   (* [net.createServer().listen(p, cb)] *)
| Close                            (* [srv.close(cb)] *)
| Fetch (url : string) (timeout : Z)
| SetTimeout (ms : Z).

Definition async_result (op : AsyncOp) : Type :=
  match op with
  | Listen _ => ListenOutcome
  | Close => unit
  | Fetch _ _ => FetchOutcome
  | SetTimeout _ => unit
  end.

(** ** Asynchronous functions *)

Inductive Async (A : Type) : Type :=
| Ret (a : A)
| Throw (e : Error)
| Do (op : SyncOp) (k : sync_result op -> Async A)
| Await (op : AsyncOp) (k : async_result op -> Async A).

Arguments Ret {A} a.
Arguments Throw {A} e.
Arguments Do {A} op k.
Arguments Await {A} op k.

Fixpoint bind {A B : Type} (m : Async A) (f : A -> Async B) : Async B :=
  match m with
  | Ret a => f a
  | Throw e => Throw e
  | Do op k => Do op (fun x => bind (k x) f)
  | Await op k => Await op (fun x => bind (k x) f)
  end.

Definition call (op : SyncOp) : Async (sync_result op) := Do op Ret.
Definition await (op : AsyncOp) : Async (async_result op) := Await op Ret.

Notation "'let!' x ':=' m 'in' k" := (bind m (fun x => k))
  (at level 10, x name, m at level 100, k at level 200).
Notation "'do!' m 'in' k" := (bind m (fun _ => k))
  (at level 10, m at level 100, k at level 200).

(** ** The store and the trace of effects *)

(** What the platform may deliver to a suspended function. *)
Inductive Answer : Type :=
| AListen (o : ListenOutcome)
| AClosed
| AFetch (o : FetchOutcome)
| ATimer.

Definition decode (op : AsyncOp) (a : Answer) : option (async_result op) :=
  match op return option (async_result op) with
  | Listen _ => match a with AListen o => Some o | _ => None end
  | Close => match a with AClosed => Some tt | _ => None end
  | Fetch _ _ => match a with AFetch o => Some o | _ => None end
  | SetTimeout _ => match a with ATimer => Some tt | _ => None end
  end.

(** Everything the module does that is visible outside a function, in
    the order in which it happens. *)
Inductive Effect : Type :=
| FxAssign (s : option OpenCodeServer)   (* [server = s] *)
| FxAccess (dir : string) (ok : bool)
| FxSpawn (p : pid) (c : ChildProcess)
| FxOnExit (p : pid) (dir : string)
| FxKill (p : pid) (sent : bool)
| FxLog (level msg : string) (data : list (string * LogValue))
| FxAwait (op : AsyncOp)                 (* the request is issued *)
| FxAnswer (op : AsyncOp) (a : Answer)   (* its answer arrives *)
| FxResolved (caller : nat) (s : OpenCodeServer)   (* [startServer] returned *)
| FxRejected (caller : nat) (e : Error)            (* [startServer] threw *)
| FxGot (caller : nat) (s : option OpenCodeServer)  (* [getServer] returned *)
| FxExited (p : pid) (code : option Z).            (* "exit" is emitted *)

Record Store : Type := mkStore {
  server : option OpenCodeServer;      (* [let server = null] *)
  env : gmap string string;            (* [process.env] *)
  accessible : gset string;            (* directories with R_OK | X_OK *)
  children : list ChildProcess;
  trace : list Effect
}.

Definition record (fx : Effect) (s : Store) : Store :=
  mkStore (server s) (env s) (accessible s) (children s) (trace s ++ [fx]).

Definition set_server (v : option OpenCodeServer) (s : Store) : Store :=
  mkStore v (env s) (accessible s) (children s) (trace s).

Definition set_children (cs : list ChildProcess) (s : Store) : Store :=
  mkStore (server s) (env s) (accessible s) cs (trace s).

Definition is_killed (s : Store) (p : pid) : bool :=
  match children s !! p with
  | Some ch => killed ch
  | None => false
  end.

Definition with_listener (dir : string) (ch : ChildProcess) : ChildProcess :=
  mkChild (spawnfile ch) (spawnargs ch) (cwd ch) (childEnv ch)
          (killed ch) (exited ch) (Some dir).

Definition with_killed (ch : ChildProcess) : ChildProcess :=
  mkChild (spawnfile ch) (spawnargs ch) (cwd ch) (childEnv ch)
          true (exited ch) (exitListener ch).

Definition with_exited (ch : ChildProcess) : ChildProcess :=
  mkChild (spawnfile ch) (spawnargs ch) (cwd ch) (childEnv ch)
          (killed ch) true (exitListener ch).

(** The synchronous operations on the store.  [p.kill()] sends the
    signal, and sets [killed], only while the child has not exited. *)
Definition perform (op : SyncOp) (s : Store) : Store * sync_result op :=
  match op return Store * sync_result op with
  | ReadServer => (s, server s)
  | WriteServer v => (record (FxAssign v) (set_server v s), tt)
  | Killed p => (s, is_killed s p)
  | AccessSync d =>
      let ok := bool_decide (d ∈ accessible s) in
      (record (FxAccess d ok) s, ok)
  | ProcessEnv => (s, env s)
  | Spawn f a d e =>
      let p := length (children s) in
      let ch := mkChild f a d e false false None in
      (record (FxSpawn p ch) (set_children (children s ++ [ch]) s), p)
  | OnExit p d =>
      (record (FxOnExit p d)
         (set_children (alter (with_listener d) p (children s)) s), tt)
  | Kill p =>
      match children s !! p with
      | Some ch =>
          if exited ch then (record (FxKill p false) s, false)
          else (record (FxKill p true)
                  (set_children (<[p := with_killed ch]> (children s)) s), true)
      | None => (record (FxKill p false) s, false)
      end
  | Log l m d => (record (FxLog l m d) s, tt)
  end.

(** A function runs until it finishes or reaches an [await]. *)
Inductive Paused (A : Type) : Type :=
| Finished (r : Error + A)
| Suspended (op : AsyncOp) (k : async_result op -> Async A).

Arguments Finished {A} r.
Arguments Suspended {A} op k.

Fixpoint run {A : Type} (m : Async A) (s : Store) : Store * Paused A :=
  match m with
  | Ret a => (s, Finished (inr a))
  | Throw e => (s, Finished (inl e))
  | Do op k => let (s', x) := perform op s in run (k x) s'
  | Await op k => (s, Suspended op k)
  end.

(** ** The module's functions *)

(** [getOpenPort] (lines 203-217). *)
Definition getOpenPort : Async number :=
  let! outcome := await (Listen 0) in
  match outcome with
  | Listening address =>
      match address with
      | AddrInfo p => do! await Close in Ret p
      | AddrNull | AddrPipe _ => Throw FailedToGetPort
      end
  | ListenFailed e => Throw (SocketError e)
  end.

Definition probe_url (p : number) : string :=
  "http://127.0.0.1:" ++ toString p ++ "/session".

(** [waitForServer] (lines 219-234); [remaining] counts the iterations
    of the [for] loop that are left, [maxAttempts - i]. *)
Fixpoint waitForServer_from (p : number) (maxAttempts remaining : nat)
  : Async bool :=
  match remaining with
  | O => Throw (ServerDidNotStart p maxAttempts)
  | S remaining' =>
      let! response := await (Fetch (probe_url p) 2000) in
      let ready :=
        match response with
        | Response status => status <? 500
        | FetchRejected => false
        end in
      if ready then Ret true
      else do! await (SetTimeout 1000) in
           waitForServer_from p maxAttempts remaining'
  end.

Definition waitForServer (p : number) (maxAttempts : nat) : Async bool :=
  waitForServer_from p maxAttempts maxAttempts.

Definition defaultMaxAttempts : nat := 30%nat.

(** The configuration passed in [OPENCODE_CONFIG_CONTENT] (lines 263-272). *)
Definition opencodeConfig : json :=
  JObject [ ("$schema", JString "https://opencode.ai/config.json");
            ("lsp", JBool false);
            ("formatter", JBool false);
            ("permission", JObject [ ("edit", JString "allow");
                                     ("bash", JString "allow");
                                     ("webfetch", JString "allow") ]) ].

(** [process.env.OPENCODE_PATH || `${process.env.HOME}/.opencode/bin/opencode`]
    (line 253); an unset [HOME] prints as [undefined]. *)
Definition opencodePath (e : gmap string string) : string :=
  let fallback :=
    match e !! "HOME" with Some h => h | None => "undefined" end
    ++ "/.opencode/bin/opencode" in
  match e !! "OPENCODE_PATH" with
  | Some path => if truthy_string path then path else fallback
  | None => fallback
  end.

(** Lines 250-251: [envPort ? Number(envPort) : null]. *)
Definition parsedPort (e : gmap string string) : option number :=
  match e !! "OPENCODE_PORT" with
  | Some envPort => if truthy_string envPort then Some (Number envPort) else None
  | None => None
  end.

(** Line 252:
    [parsedPort && !Number.isNaN(parsedPort) ? parsedPort : await getOpenPort()]. *)
Definition resolvePort (e : gmap string string) : Async number :=
  match parsedPort e with
  | Some n =>
      if truthy_number n && negb (Number_isNaN n) then Ret n else getOpenPort
  | None => getOpenPort
  end.

(** Lines 253-298 of [startServer]: the child is spawned for the
    resolved port and the exit listener is registered on it.  [spawn]
    hands back a process handle; a launch that fails is reported by the
    "error" event of the handle, whose listener, like those on the
    output streams, only writes to the log. *)
Definition spawnServer (dir : string) (p : number) : Async pid :=
  let! e := call ProcessEnv in
  do! call (Log "info" "Starting opencode serve"
                [("directory", LStr dir); ("port", LNum p)]) in
  let! serverProcess :=
    call (Spawn (opencodePath e) ["serve"; "--port"; toString p] dir
                (<["OPENCODE_CONFIG_CONTENT" := JSON_stringify opencodeConfig]> e)) in
  do! call (OnExit serverProcess dir) in
  Ret serverProcess.

(** Lines 301-328 of [startServer]: the instance is built, stored and
    returned. *)
Definition publish (dir : string) (p : number) (serverProcess : pid)
  : Async OpenCodeServer :=
  do! call (Log "info" "Server ready"
                [("directory", LStr dir); ("port", LNum p)]) in
  let url := "http://127.0.0.1:" ++ toString p in
  let srv := {| process := serverProcess;
                client := createOpencodeClient url;
                clientV2 := createOpencodeClientV2 url;
                port := p;
                directory := dir |} in
  do! call (WriteServer (Some srv)) in
  Ret srv.

(** Lines 243-328 of [startServer]: what follows the reuse test. *)
Definition startFresh (dir : string) : Async OpenCodeServer :=
  let! ok := call (AccessSync dir) in
  if negb ok then Throw (DirectoryNotAccessible dir)
  else
    let! e := call ProcessEnv in
    let! p := resolvePort e in
    let! serverProcess := spawnServer dir p in
    do! waitForServer p defaultMaxAttempts in
    publish dir p serverProcess.

(** [startServer] (lines 236-329). *)
Definition startServer (dir : string) : Async OpenCodeServer :=
  let! current := call ReadServer in
  match current with
  | Some srv =>
      let! wasKilled := call (Killed (process srv)) in
      if negb wasKilled then
        do! call (Log "info" "Reusing existing server"
                      [("directory", LStr dir); ("port", LNum (port srv))]) in
        Ret srv
      else startFresh dir
  | None => startFresh dir
  end.

(** [getServer] (lines 331-333). *)
Definition getServer : Async (option OpenCodeServer) :=
  let! current := call ReadServer in
  Ret current.

(** [stopServer] (lines 335-341). *)
Definition stopServer : Async unit :=
  let! current := call ReadServer in
  match current with
  | Some srv =>
      do! call (Kill (process srv)) in
      do! call (Log "info" "Server stopped" [("directory", LStr (directory srv))]) in
      do! call (WriteServer None) in
      Ret tt
  | None => Ret tt
  end.

(** ** A function run against a script of answers

    [exec m script s] runs [m] alone: each [await] takes the next answer
    of the script.  It stops when the function settles, or blocks when
    the script is exhausted or its next answer does not fit. *)
Inductive Outcome (A : Type) : Type :=
| Settled (r : Error + A)
| Blocked (op : AsyncOp).

Arguments Settled {A} r.
Arguments Blocked {A} op.

Fixpoint exec {A : Type} (m : Async A) (script : list Answer) (s : Store)
  : Store * Outcome A :=
  match m with
  | Ret a => (s, Settled (inr a))
  | Throw e => (s, Settled (inl e))
  | Do op k => let (s', x) := perform op s in exec (k x) script s'
  | Await op k =>
      let s1 := record (FxAwait op) s in
      match script with
      | [] => (s1, Blocked op)
      | a :: rest =>
          match decode op a with
          | Some x => exec (k x) rest (record (FxAnswer op a) s1)
          | None => (s1, Blocked op)
          end
      end
  end.

(** ** Vocabulary of the statements *)

(** The test of line 238, [server && !server.process.killed], holds. *)
Definition reusable (s : Store) (srv : OpenCodeServer) : Prop :=
  server s = Some srv /\ is_killed s (process srv) = false.

Definition reuse_log (dir : string) (srv : OpenCodeServer) : Effect :=
  FxLog "info" "Reusing existing server"
        [("directory", LStr dir); ("port", LNum (port srv))].

Definition starting_log (dir : string) (p : number) : Effect :=
  FxLog "info" "Starting opencode serve"
        [("directory", LStr dir); ("port", LNum p)].

(** The launch the specification asks for, given the environment [e] of
    the supervisor: the binary of [OPENCODE_PATH] or else the one
    installed under the home directory, [serve --port <port>], the
    requested working directory, and the environment extended with the
    JSON configuration. *)
Definition serve_invocation (e : gmap string string) (dir : string) (p : number)
  (ch : ChildProcess) : Prop :=
  spawnfile ch
  = match e !! "OPENCODE_PATH" with
    | Some path =>
        if String.eqb path "" then
          match e !! "HOME" with Some h => h | None => "undefined" end
          ++ "/.opencode/bin/opencode"
        else path
    | None =>
        match e !! "HOME" with Some h => h | None => "undefined" end
        ++ "/.opencode/bin/opencode"
    end
  /\ spawnargs ch = ["serve"; "--port"; toString p]
  /\ cwd ch = dir
  /\ childEnv ch
     = <["OPENCODE_CONFIG_CONTENT" :=
           JSON_stringify
             (JObject [ ("$schema", JString "https://opencode.ai/config.json");
                        ("lsp", JBool false);
                        ("formatter", JBool false);
                        ("permission", JObject [ ("edit", JString "allow");
                                                 ("bash", JString "allow");
                                                 ("webfetch", JString "allow") ]) ])]> e.

(** The store with further effects on its trace, and nothing else changed. *)
Definition extend (fxs : list Effect) (s : Store) : Store :=
  mkStore (server s) (env s) (accessible s) (children s) (trace s ++ fxs).

(** A probe that does not make the server count as ready: a status of
    500 or more, or no response at all. *)
Definition failing (o : FetchOutcome) : Prop :=
  match o with
  | Response status => 500 <= status
  | FetchRejected => True
  end.

(** The answers consumed, and the effects left, by one failed attempt. *)
Definition failed_attempt_answers (o : FetchOutcome) : list Answer :=
  [AFetch o; ATimer].

Definition failed_attempt (p : number) (o : FetchOutcome) : list Effect :=
  [FxAwait (Fetch (probe_url p) 2000);
   FxAnswer (Fetch (probe_url p) 2000) (AFetch o);
   FxAwait (SetTimeout 1000);
   FxAnswer (SetTimeout 1000) ATimer].

Definition is_fetch (fx : Effect) : bool :=
  match fx with
  | FxAwait (Fetch _ _) => true
  | _ => false
  end.

(** The number of HTTP requests issued on a trace. *)
Definition count_fetches (fxs : list Effect) : nat :=
  length (List.filter is_fetch fxs).

(** The requests of [waitForServer] for port [p], and their answers:
    the probe of the session path with a timeout of 2000 ms, and the
    delay of 1000 ms. *)
Definition probe_or_delay (p : number) (fx : Effect) : Prop :=
  match fx with
  | FxAwait op | FxAnswer op _ =>
      op = Fetch ("http://127.0.0.1:" ++ toString p ++ "/session") 2000
      \/ op = SetTimeout 1000
  | _ => False
  end.

(** The store after lines 253-298 have run in [s] for port [p]. *)
Definition spawned (dir : string) (p : number) (s : Store) : Store :=
  let ch := mkChild (opencodePath (env s)) ["serve"; "--port"; toString p] dir
              (<["OPENCODE_CONFIG_CONTENT" := JSON_stringify opencodeConfig]> (env s))
              false false None in
  mkStore (server s) (env s) (accessible s)
          (children s ++ [with_listener dir ch])
          (trace s ++ [starting_log dir p;
                       FxSpawn (length (children s)) ch;
                       FxOnExit (length (children s)) dir]).

(** ** The event loop *)

(** A [startServer] in flight belongs to the caller awaiting it, or to
    the exit listener, which starts it with only a [catch] attached. *)
Inductive Owner : Type :=
| Caller (c : nat)
| Restart.

Record Task : Type := mkTask {
  owner : Owner;
  pending : AsyncOp;
  resume : async_result pending -> Async OpenCodeServer
}.

Record World : Type := mkWorld {
  store : Store;
  tasks : gmap nat Task;
  nextTask : nat
}.

Definition with_store (f : Store -> Store) (w : World) : World :=
  mkWorld (f (store w)) (tasks w) (nextTask w).

(** The promise of a [startServer] settles: the awaiting caller gets the
    instance or the error; for a restart, line 294-296, the error goes
    to the log and the result is dropped. *)
Definition settle (o : Owner) (r : Error + OpenCodeServer) (s : Store) : Store :=
  match o, r with
  | Caller c, inr srv => record (FxResolved c srv) s
  | Caller c, inl e => record (FxRejected c e) s
  | Restart, inr _ => s
  | Restart, inl e =>
      record (FxLog "error" "Failed to restart server" [("error", LErr e)]) s
  end.

Definition launch (o : Owner) (m : Async OpenCodeServer) (w : World) : World :=
  match run m (store w) with
  | (s, Finished r) => mkWorld (settle o r s) (tasks w) (nextTask w)
  | (s, Suspended op k) =>
      mkWorld (record (FxAwait op) s)
              (<[nextTask w := mkTask o op k]> (tasks w))
              (S (nextTask w))
  end.

(** [code !== 0]; [code] is [null] when a signal ended the child. *)
Definition code_nonzero (code : option Z) : bool :=
  match code with
  | Some 0 => false
  | _ => true
  end.

Definition exec_sync (op : SyncOp) (s : Store) : Store := fst (perform op s).

(** The exit listener, lines 288-298. *)
Definition onExit (dir : string) (code : option Z) (w : World) : World :=
  let w1 := with_store (exec_sync (Log "info" "Server exited"
                          [("directory", LStr dir); ("code", LCode code)])) w in
  let w2 := with_store (exec_sync (WriteServer None)) w1 in
  if code_nonzero code then
    let w3 := with_store (exec_sync (Log "info" "Restarting server"
                            [("directory", LStr dir)])) w2 in
    launch Restart (startServer dir) w3
  else w2.

(** What can happen to the module: calls of its exported functions, an
    answer of the platform to a suspended function, the exit of a
    child, and a [kill()] by a holder of an exposed process handle. *)
Inductive Event : Type :=
| CallStart (c : nat) (dir : string)
| CallStop
| CallGet (c : nat)
| Deliver (t : nat) (a : Answer)
| ChildExit (p : pid) (code : option Z)
| HandleKill (p : pid).

Definition step (w : World) (ev : Event) : World :=
  match ev with
  | CallStart c dir => launch (Caller c) (startServer dir) w
  | CallStop => with_store (fun s => fst (run stopServer s)) w
  | CallGet c =>
      with_store
        (fun s =>
           match run getServer s with
           | (s', Finished (inr current)) => record (FxGot c current) s'
           | (s', _) => s'
           end) w
  | Deliver t a =>
      match tasks w !! t with
      | Some task =>
          match decode (pending task) a with
          | Some x =>
              launch (owner task) (resume task x)
                (mkWorld (record (FxAnswer (pending task) a) (store w))
                         (delete t (tasks w)) (nextTask w))
          | None => w
          end
      | None => w
      end
  | ChildExit p code =>
      match children (store w) !! p with
      | Some ch =>
          if exited ch then w
          else
            let w' := with_store
                        (fun s => record (FxExited p code)
                                    (set_children (<[p := with_exited ch]> (children s)) s))
                        w in
            match exitListener ch with
            | Some dir => onExit dir code w'
            | None => w'
            end
      | None => w
      end
  | HandleKill p => with_store (exec_sync (Kill p)) w
  end.

Definition run_events (w : World) (evs : list Event) : World :=
  fold_left step evs w.

(** The module just loaded: no instance, nothing spawned, nothing in flight. *)
Definition initial (e : gmap string string) (dirs : gset string) : World :=
  mkWorld (mkStore None e dirs [] []) ∅ 0%nat.



Definition restart_failed_log (e : Error) : Effect :=
  FxLog "error" "Failed to restart server" [("error", LErr e)].


(** ** Readiness, as seen on the trace *)

(** A probe of [url] has been answered with a status below 500. *)
Definition probed (tr : list Effect) (url : string) : Prop :=
  exists timeout status,
    status < 500
    /\ In (FxAnswer (Fetch url timeout) (AFetch (Response status))) tr.

(** The readiness probe of the port of [srv] has succeeded. *)
Definition ready (tr : list Effect) (srv : OpenCodeServer) : Prop :=
  probed tr (probe_url (port srv)).

(** The instance an effect exposes: to the slot, to the caller of
    [startServer], to the caller of [getServer]. *)
Definition exposed (fx : Effect) : option OpenCodeServer :=
  match fx with
  | FxAssign (Some srv) => Some srv
  | FxResolved _ srv => Some srv
  | FxGot _ (Some srv) => Some srv
  | _ => None
  end.



(** ** A logic for the functions

    [guarded Q ok m]: given that the URLs in [ok] have been probed with
    success, [m] writes to the slot only instances whose probe URL is
    known to have succeeded, and its result satisfies [Q].  What is
    known grows with every successful probe the function awaits, and
    may have grown whenever the function resumes. *)
Definition Known : Type := string -> Prop.

Definition sync_pre (ok : Known) (op : SyncOp) : Prop :=
  match op with
  | WriteServer (Some srv) => ok (probe_url (port srv))
  | _ => True
  end.

Definition sync_post (ok : Known) (op : SyncOp) : sync_result op -> Prop :=
  match op return sync_result op -> Prop with
  | ReadServer => fun current => forall srv, current = Some srv -> ok (probe_url (port srv))
  | _ => fun _ => True
  end.

Definition learn (ok : Known) (op : AsyncOp) : async_result op -> Known :=
  match op return async_result op -> Known with
  | Fetch url _ =>
      fun o u => ok u \/ (u = url /\ exists status, o = Response status /\ status < 500)
  | _ => fun _ => ok
  end.

Definition known_le (ok ok' : Known) : Prop := forall u, ok u -> ok' u.

Fixpoint guarded {A : Type} (Q : Known -> A -> Prop) (ok : Known) (m : Async A) : Prop :=
  match m with
  | Ret a => Q ok a
  | Throw _ => True
  | Do op k =>
      sync_pre ok op
      /\ forall ok' x, known_le ok ok' -> sync_post ok' op x -> guarded Q ok' (k x)
  | Await op k =>
      forall ok' x, known_le (learn ok op x) ok' -> guarded Q ok' (k x)
  end.









Definition is_spawn (fx : Effect) : bool :=
  match fx with
  | FxSpawn _ _ => true
  | _ => false
  end.

Definition count_spawns (fxs : list Effect) : nat :=
  length (List.filter is_spawn fxs).


End Supervisor.

Arguments Ret {RT A} a.
Arguments Throw {RT A} e.
Arguments Do {RT A} op k.
Arguments Await {RT A} op k.
Arguments Finished {RT A} r.
Arguments Suspended {RT A} op k.
Arguments Settled {RT A} r.
Arguments Blocked {RT A} op.

Notation "'let!' x ':=' m 'in' k" := (bind m (fun x => k))
  (at level 10, x name, m at level 100, k at level 200).
Notation "'do!' m 'in' k" := (bind m (fun _ => k))
  (at level 10, m at level 100, k at level 200).

(** ** A runtime for the examples

    Numbers are integers or NaN; [Number] reads the empty string as 0
    and an unsigned decimal numeral as its value, which is what
    JavaScript does on these strings, and everything else as NaN.  The
    general theorems below hold for every runtime; this one only serves
    to evaluate the model on concrete runs. *)
Module Decimal.

Definition num : Type := option Z.

Definition parse (s : string) : num :=
  if String.eqb s "" then Some 0
  else match DecimalString.NilZero.uint_of_string s with
       | Some u => Some (Z.of_uint u)
       | None => None
       end.

Definition print (n : num) : string :=
  match n with
  | Some z => DecimalString.NilZero.string_of_int (Z.to_int z)
  | None => "NaN"
  end.

Definition isNaN (n : num) : bool :=
  match n with Some _ => false | None => true end.

Definition zero (n : num) : bool :=
  match n with Some z => z =? 0 | None => false end.

#[global] Instance runtime : JSRuntime :=
  {| number := num;
     Number := parse;
     Number_isNaN := isNaN;
     is_zero := zero;
     toString := print;
     Number_empty := eq_refl |}.

End Decimal.

(** ** Example runs

    The supervisor is loaded with [HOME] set and one accessible
    directory.  [demo_start] brings a server up: the call, the port
    4096 from the system, the socket closed, the first probe answered
    with 200. *)
Definition demo_env : gmap string string := {["HOME" := "/home/bot"]}.

Definition demo_dirs : gset string := {["/tmp/proj"]}.

Definition demo_start : list Event :=
  [CallStart 0 "/tmp/proj";
   Deliver 0 (AListen (Listening (AddrInfo (Some 4096))));
   Deliver 1 AClosed;
   Deliver 2 (AFetch (Response 200))].

Definition demo_live : World := run_events (initial demo_env demo_dirs) demo_start.

Definition demo_instance (child : pid) (p : Z) (url : string) : OpenCodeServer :=
  {| process := child;
     client := createOpencodeClient url;
     clientV2 := createOpencodeClientV2 url;
     port := Some p;
     directory := "/tmp/proj" |}.

Definition demo_server : OpenCodeServer :=
  demo_instance 0%nat 4096 "http://127.0.0.1:4096".

(** After [stopServer()], the child ends by the signal and its exit is
    reported with a [null] code; the platform then serves the restart
    (port 4097, socket closed, probe answered), and a caller reads the
    slot. *)
Definition demo_after_stop : list Event :=
  [CallStop;
   ChildExit 0%nat None;
   Deliver 3 (AListen (Listening (AddrInfo (Some 4097))));
   Deliver 4 AClosed;
   Deliver 5 (AFetch (Response 200));
   CallGet 7].

(** The server of [demo_live] crashes; while the restart waits for its
    port, a caller starts the server (port 4097, probe answered); then
    the restart's request for a port fails. *)
Definition demo_restart_fails : list Event :=
  [ChildExit 0%nat (Some 1);
   CallStart 1 "/tmp/proj";
   Deliver 4 (AListen (Listening (AddrInfo (Some 4097))));
   Deliver 5 AClosed;
   Deliver 6 (AFetch (Response 200));
   Deliver 3 (AListen (ListenFailed "EMFILE"))].

(** A store whose environment forces the port. *)
Definition demo_forced_port : Store :=
  mkStore None (<["OPENCODE_PORT" := "8080"]> demo_env) demo_dirs [] [].

(** ** Message formatting ([src/message-formatting.ts], lines 1-169)

    A JavaScript string is a sequence of UTF-16 code units; [lit] reads
    an ASCII literal of the source.  [str.length], [split], [trim],
    [charAt] and [slice] count code units, as the language does. *)
Module JS.

Definition str : Type := list N.

Definition lit (s : string) : str :=
  map Ascii.N_of_ascii (list_ascii_of_string s).

(** [String(n)] for a count [n]. *)
Definition ofNat (n : nat) : str :=
  lit (DecimalString.NilZero.string_of_uint (Nat.to_uint n)).

Definition eqb (a b : str) : bool := bool_decide (a = b).

(** Truthiness of a string. *)
Definition truthy (s : str) : bool :=
  match s with
  | [] => false
  | _ :: _ => true
  end.

(** [s.split(sep)] for a separator of one code unit: never empty. *)
Fixpoint split (sep : N) (s : str) : list str :=
  match s with
  | [] => [[]]
  | c :: rest =>
      if N.eqb c sep then [] :: split sep rest
      else match split sep rest with
           | seg :: segs => (c :: seg) :: segs
           | [] => [[c]]
           end
  end.

(** [s.includes(c)] for one code unit. *)
Definition includes (c : N) (s : str) : bool := existsb (N.eqb c) s.

Fixpoint startsWith (prefix s : str) : bool :=
  match prefix, s with
  | [], _ => true
  | p :: prefix', c :: s' => N.eqb p c && startsWith prefix' s'
  | _ :: _, [] => false
  end.

(** White space and line terminators of the language, which [trim]
    removes: TAB, LF, VT, FF, CR, SP, NBSP, U+1680, U+2000-U+200A,
    U+2028, U+2029, U+202F, U+205F, U+3000 and U+FEFF. *)
Definition isSpace (c : N) : bool :=
  ((9 <=? c) && (c <=? 13) || (c =? 32) || (c =? 160) || (c =? 5760)
   || (8192 <=? c) && (c <=? 8202) || (c =? 8232) || (c =? 8233)
   || (c =? 8239) || (c =? 8287) || (c =? 12288) || (c =? 65279))%N.

Fixpoint trimStart (s : str) : str :=
  match s with
  | [] => []
  | c :: rest => if isSpace c then trimStart rest else s
  end.

Fixpoint trimEnd (s : str) : str :=
  match s with
  | [] => []
  | c :: rest =>
      match trimEnd rest with
      | [] => if isSpace c then [] else [c]
      | kept => c :: kept
      end
  end.

Definition trim (s : str) : str := trimEnd (trimStart s).

End JS.

Module Format.

Import JS.

(** The parts of the SDK, as far as the module reads them. *)
Inductive Status : Type := Pending | Running | Completed | Failed.

(** [Failed] is the status ["error"] of the SDK. *)

Record Todo : Type := mkTodo {
  content : str;
  todoStatus : str
}.

(** The state of a tool part: [input] holds the string properties of
    [state.input] (the module casts each one it reads to a string; a
    missing [input] has none), [todos] is [state.input.todos]; [title]
    is absent when the state has no such key. *)
Record ToolState : Type := mkToolState {
  status : Status;
  input : gmap string str;
  todos : option (list Todo);
  title : option str;
  error : option str
}.

Inductive Part : Type :=
| TextPart (text : option str)
| ReasoningPart (text : option str)
| FilePart (filename : option str)
| StepStart
| StepFinish
| Patch
| AgentPart (id : str)
| ToolPart (tool : str) (state : ToolState)
| OtherPart.

Definition backslash : N := 92%N.

(** The class [[*_`\[\]]]. *)
Definition special (c : N) : bool :=
  ((c =? 42) || (c =? 95) || (c =? 96) || (c =? 91) || (c =? 93))%N.

(** [escapeMarkdown], lines 11-13. *)
Definition escapeMarkdown (text : str) : str :=
  flat_map (fun c => if special c then [backslash; c] else [c]) text.

(** [(input.key as string) || ""]. *)
Definition field (obj : gmap string str) (key : string) : str :=
  match obj !! key with
  | Some v => v
  | None => []
  end.

(** [filePath.split("/").pop() || ""]. *)
Definition baseName (filePath : str) : str :=
  match last (split 47%N filePath) with
  | Some name => name
  | None => []
  end.

(** [text.split("\n").length]. *)
Definition lineCount (text : str) : nat := length (split 10%N text).

(** [url.replace(/^https?:\/\//, "")]. *)
Definition stripProtocol (url : str) : str :=
  if startsWith (lit "http://") url then skipn 7 url
  else if startsWith (lit "https://") url then skipn 8 url
  else url.

Definition starred (s : str) : str := (lit "*" ++ escapeMarkdown s ++ lit "*")%list.

Definition underlined (s : str) : str := (lit "_" ++ escapeMarkdown s ++ lit "_")%list.

(** [getToolSummaryText], lines 18-75. *)
Definition getToolSummaryText (part : Part) : str :=
  match part with
  | ToolPart tool state =>
      let input := input state in
      if eqb tool (lit "edit") then
        let filePath := field input "filePath" in
        let newString := field input "newString" in
        let oldString := field input "oldString" in
        let added := lineCount newString in
        let removed := lineCount oldString in
        let fileName := baseName filePath in
        let counts := (lit "(+" ++ ofNat added ++ lit "-" ++ ofNat removed ++ lit ")")%list in
        if truthy fileName then (starred fileName ++ lit " " ++ counts)%list else counts
      else if eqb tool (lit "write") then
        let filePath := field input "filePath" in
        let content := field input "content" in
        let lines := lineCount content in
        let fileName := baseName filePath in
        let counts :=
          (lit "(" ++ ofNat lines ++ lit " line"
           ++ (if Nat.eqb lines 1 then [] else lit "s") ++ lit ")")%list in
        if truthy fileName then (starred fileName ++ lit " " ++ counts)%list else counts
      else if eqb tool (lit "webfetch") then
        let url := field input "url" in
        let urlWithoutProtocol := stripProtocol url in
        if truthy urlWithoutProtocol then starred urlWithoutProtocol else []
      else if eqb tool (lit "read") then
        let filePath := field input "filePath" in
        let fileName := baseName filePath in
        if truthy fileName then starred fileName else []
      else if eqb tool (lit "glob") then
        let pattern := field input "pattern" in
        if truthy pattern then starred pattern else []
      else if eqb tool (lit "grep") then
        let pattern := field input "pattern" in
        if truthy pattern then starred pattern else []
      else if eqb tool (lit "bash") || eqb tool (lit "todoread")
              || eqb tool (lit "todowrite") then []
      else if eqb tool (lit "task") then
        let description := field input "description" in
        if truthy description then underlined description else []
      else []
  | _ => []
  end.

(** [todos.findIndex(p)]; [None] stands for [-1]. *)
Fixpoint findIndex {A : Type} (p : A -> bool) (l : list A) : option nat :=
  match l with
  | [] => None
  | x :: rest =>
      if p x then Some 0%nat
      else match findIndex p rest with
           | Some i => Some (S i)
           | None => None
           end
  end.

Section WithCaseMapping.

(** [String.prototype.toLowerCase], here only applied to [charAt(0)]. *)
Variable toLowerCase : str -> str.

(** [formatTodoList], lines 80-97. *)
Definition formatTodoList (part : Part) : str :=
  match part with
  | ToolPart tool state =>
      if negb (eqb tool (lit "todowrite")) then []
      else
        let todos := match todos state with Some l => l | None => [] end in
        match findIndex (fun todo => eqb (todoStatus todo) (lit "in_progress")) todos with
        | None => []
        | Some activeIndex =>
            match todos !! activeIndex with
            | None => []
            | Some activeTodo =>
                let num := (ofNat (activeIndex + 1) ++ lit ".")%list in
                let content :=
                  (toLowerCase (firstn 1 (content activeTodo))
                   ++ skipn 1 (content activeTodo))%list in
                (num ++ lit " " ++ starred content)%list
            end
        end
  | _ => []
  end.

(** [!part.text?.trim()]. *)
Definition blank (text : option str) : bool :=
  match text with
  | Some t => negb (truthy (trim t))
  | None => true
  end.

(** [formatPart], lines 103-169. *)
Definition formatPart (part : Part) : str :=
  match part with
  | TextPart text =>
      if blank text then [] else match text with Some t => t | None => [] end
  | ReasoningPart text =>
      if blank text then [] else lit "> thinking"
  | FilePart filename =>
      (lit "[file] "
       ++ match filename with
          | Some name => if truthy name then name else lit "File"
          | None => lit "File"
          end)%list
  | StepStart | StepFinish | Patch => []
  | AgentPart id => (lit "> agent " ++ id)%list
  | ToolPart tool state =>
      if eqb tool (lit "todowrite") then formatTodoList part
      else if eqb tool (lit "question") then []
      else
        match status state with
        | Pending => []
        | _ =>
            let summaryText := getToolSummaryText part in
            let stateTitle := match title state with Some t => t | None => [] end in
            let isError := match status state with Failed => true | _ => false end in
            let toolTitle :=
              if isError then
                match error state with
                | Some e => if truthy e then e else lit "error"
                | None => lit "error"
                end
              else if eqb tool (lit "bash") then
                let command := field (input state) "command" in
                let description := field (input state) "description" in
                let isSingleLine := negb (includes 10%N command) in
                if isSingleLine && (length command <=? 50)%nat then underlined command
                else if truthy description then underlined description
                else if truthy stateTitle then underlined stateTitle
                else []
              else if truthy stateTitle then underlined stateTitle
              else [] in
            let icon := if isError then lit "X" else lit ">" in
            trim (icon ++ lit " " ++ tool ++ lit " " ++ toolTitle ++ lit " " ++ summaryText)%list
        end
  | OtherPart => []
  end.

End WithCaseMapping.

End Format.

(** ** Vocabulary for the formatting functions *)
Module FormatSpec.

Import JS Format.

(** No character of the class stands on its own: each one directly
    follows a backslash.  [afterBackslash] tells whether the previous
    code unit was one. *)
Fixpoint bareFree (afterBackslash : bool) (s : str) : bool :=
  match s with
  | [] => true
  | c :: rest =>
      (negb (special c) || afterBackslash) && bareFree (N.eqb c backslash) rest
  end.

(** The reading of an escaped text: a backslash before a character of
    the class is dropped. *)
Fixpoint unescapeMarkdown (s : str) : str :=
  match s with
  | [] => []
  | c :: rest =>
      if N.eqb c backslash then
        match rest with
        | d :: rest' => if special d then d :: unescapeMarkdown rest'
                        else c :: unescapeMarkdown rest
        | [] => [c]
        end
      else c :: unescapeMarkdown rest
  end.

(** The number of line feeds of a text. *)
Definition newlines (s : str) : nat := length (List.filter (N.eqb 10%N) s).

Definition inProgress (todo : Todo) : bool := eqb (todoStatus todo) (lit "in_progress").

End FormatSpec.

(** ** Configuration loading ([src/config.ts])

    [loadConfig(directory)] called without a logger (every use of [log]
    is an optional call, and the configuration returned does not depend
    on it).  The configuration is an object: its own properties and its
    prototype, which [Object.assign] can replace when a file has a
    member named [__proto__]. *)
Module Config.

Section WithRuntime.

Context `{RT : JSRuntime}.

(** The values a JSON file can give to a property. *)
#[local] Unset Elimination Schemes.
Inductive jvalue : Type :=
| JNull
| JTrue
| JFalse
| JNumber (n : number)
| JText (s : string)
| JArray (items : list jvalue)
| JRecord (members : list (string * jvalue)).
#[local] Set Elimination Schemes.

(** What reading and parsing one configuration file comes to:
    [readFile] rejects or [JSON.parse] throws, or the parsed value is
    there with its own enumerable properties. *)
Inductive FileOutcome : Type :=
| NoConfig
| Parsed (properties : gmap string jvalue).

(** The prototype of the configuration object: [Object.prototype], as
    the literal [{}] of line 20 has it, or what an assignment to
    [__proto__] has put in its place, [null] or a parsed object. *)
Inductive Prototype : Type :=
| ObjectPrototype
| NullPrototype
| Installed (v : jvalue).

Record BotConfig : Type := mkConfig {
  own : gmap string jvalue;
  proto : Prototype
}.

(** The properties [interface BotConfig] declares. *)
Inductive Field : Type := botToken | chatId | threadId | updatesUrl | sendUrl.

Definition fieldName (f : Field) : string :=
  match f with
  | botToken => "botToken"
  | chatId => "chatId"
  | threadId => "threadId"
  | updatesUrl => "updatesUrl"
  | sendUrl => "sendUrl"
  end.

(** The member [key] of a parsed object: [JSON.parse] keeps the last of
    the members of one name. *)
Fixpoint member (members : list (string * jvalue)) (key : string) : option jvalue :=
  match members with
  | [] => None
  | (k, v) :: rest =>
      match member rest key with
      | Some later => Some later
      | None => if String.eqb k key then Some v else None
      end
  end.

(** What a declared property inherits.  [Object.prototype] and
    [Array.prototype] have no property of these five names, and the own
    properties of an array are its indices and [length]. *)
Definition inherited (p : Prototype) (f : Field) : option jvalue :=
  match p with
  | Installed (JRecord members) => member members (fieldName f)
  | _ => None
  end.

(** [config.f]; [None] is [undefined]. *)
Definition read (config : BotConfig) (f : Field) : option jvalue :=
  match own config !! fieldName f with
  | Some v => Some v
  | None => inherited (proto config) f
  end.

(** [config[key] = v] for a key other than [__proto__]: nothing on the
    prototype chain of a configuration is read-only or has a setter, so
    the property becomes, or stays, an own property. *)
Definition assignOwn (key : string) (v : jvalue) (config : BotConfig) : BotConfig :=
  mkConfig (<[key := v]> (own config)) (proto config).

(** The setter of [Object.prototype.__proto__]: an object or [null]
    becomes the prototype, anything else is ignored. *)
Definition setPrototypeOf (v : jvalue) (config : BotConfig) : BotConfig :=
  match v with
  | JRecord _ | JArray _ => mkConfig (own config) (Installed v)
  | JNull => mkConfig (own config) NullPrototype
  | _ => config
  end.

(** Whether a lookup of [__proto__] from the prototype on ends at the
    accessor of [Object.prototype]: not if the chain was cut by [null],
    nor if a parsed object in it has a member of that name (a data
    property, as [JSON.parse] creates it). *)
Definition reachesAccessor (p : Prototype) : bool :=
  match p with
  | ObjectPrototype => true
  | NullPrototype => false
  | Installed (JRecord members) =>
      match member members "__proto__" with
      | Some _ => false
      | None => true
      end
  | Installed _ => true
  end.

(** [config.__proto__ = v], as [Object.assign] does it for a member
    named [__proto__]. *)
Definition assignProto (v : jvalue) (config : BotConfig) : BotConfig :=
  match own config !! "__proto__" with
  | Some _ => assignOwn "__proto__" v config
  | None =>
      if reachesAccessor (proto config) then setPrototypeOf v config
      else assignOwn "__proto__" v config
  end.

(** [Object.assign(config, fileConfig)]: every own enumerable property
    of the source is assigned to the target.  The assignments to
    different keys do not depend on each other, so the order of the
    keys does not matter. *)
Definition assign (config : BotConfig) (source : gmap string jvalue) : BotConfig :=
  let config := mkConfig (delete "__proto__" source ∪ own config) (proto config) in
  match source !! "__proto__" with
  | Some v => assignProto v config
  | None => config
  end.

(** A variable of the environment that is set and not empty. *)
Definition envVar (e : gmap string string) (name : string) : option string :=
  match e !! name with
  | Some v => if truthy_string v then Some v else None
  | None => None
  end.

(** [process.env.HOME || process.env.USERPROFILE || ""], line 21. *)
Definition homeDir (e : gmap string string) : string :=
  match envVar e "HOME" with
  | Some h => h
  | None => match envVar e "USERPROFILE" with
            | Some u => u
            | None => ""
            end
  end.

Section WithPlatform.

(** [path.join] and the file system. *)
Variable join : list string -> string.
Variable files : string -> FileOutcome.

(** Lines 23-26. *)
Definition configPaths (e : gmap string string) (directory : string) : list string :=
  [ join [homeDir e; ".config"; "opencode"; "telegram.json"];
    join [directory; ".opencode"; "telegram.json"] ].

(** The loop of lines 30-45. *)
Definition loadFiles (paths : list string) (config : BotConfig) : BotConfig :=
  fold_left (fun config path =>
               match files path with
               | Parsed fileConfig => assign config fileConfig
               | NoConfig => config
               end) paths config.

Definition overrideText (e : gmap string string) (name key : string)
  (config : BotConfig) : BotConfig :=
  match envVar e name with
  | Some v => assignOwn key (JText v) config
  | None => config
  end.

(** Lines 58-64: the thread id is taken only if it is a number. *)
Definition overrideThread (e : gmap string string) (config : BotConfig) : BotConfig :=
  match envVar e "TELEGRAM_THREAD_ID" with
  | Some v =>
      let parsed := Number v in
      if negb (Number_isNaN parsed) then assignOwn "threadId" (JNumber parsed) config
      else config
  | None => config
  end.

(** [loadConfig], lines 19-78. *)
Definition loadConfig (e : gmap string string) (directory : string) : BotConfig :=
  let config := loadFiles (configPaths e directory) (mkConfig ∅ ObjectPrototype) in
  let config := overrideText e "TELEGRAM_BOT_TOKEN" "botToken" config in
  let config := overrideText e "TELEGRAM_CHAT_ID" "chatId" config in
  let config := overrideThread e config in
  let config := overrideText e "TELEGRAM_UPDATES_URL" "updatesUrl" config in
  let config := overrideText e "TELEGRAM_SEND_URL" "sendUrl" config in
  config.

(** The properties a file holds; none if it cannot be read or parsed. *)
Definition fileConfig (path : string) : gmap string jvalue :=
  match files path with
  | Parsed properties => properties
  | NoConfig => ∅
  end.

(** The variable of the environment that overrides a text property. *)
Definition overridingVar (key : string) : option string :=
  if String.eqb key "botToken" then Some "TELEGRAM_BOT_TOKEN"
  else if String.eqb key "chatId" then Some "TELEGRAM_CHAT_ID"
  else if String.eqb key "updatesUrl" then Some "TELEGRAM_UPDATES_URL"
  else if String.eqb key "sendUrl" then Some "TELEGRAM_SEND_URL"
  else None.


(** What the files give for a property: the project's file first, the
    user's file otherwise. *)
Definition fromFiles (e : gmap string string) (directory key : string)
  : option jvalue :=
  match fileConfig (join [directory; ".opencode"; "telegram.json"]) !! key with
  | Some v => Some v
  | None => fileConfig (join [homeDir e; ".config"; "opencode"; "telegram.json"]) !! key
  end.


End WithPlatform.

End WithRuntime.

End Config.

(** ** The mock update server ([test/mock-server.ts])

    The store of updates and the two functions that serve and extend it.
    Updates are as [interface TelegramUpdate] declares them, with
    integer ids ([received_at] is never read and is left out); what the
    server prints on the console is left out too. *)
Module Mock.

Section WithPayload.

Variable Payload : Type.

Record TelegramUpdate : Type := {
  update_id : Z;
  chat_id : option string;
  payload : Payload
}.

(** The module's variables [updates] and [lastServedUpdateId]. *)
Record Server : Type := {
  updates : list TelegramUpdate;
  lastServedUpdateId : Z
}.

Definition newer (since : Z) (u : TelegramUpdate) : bool := since <? update_id u.

(** [getNextUpdates], lines 69-79: the batch, and the server after. *)
Definition getNextUpdates (since : Z) (limit : nat) (s : Server)
  : list TelegramUpdate * Server :=
  let filtered := List.filter (newer since) (updates s) in
  let batch := firstn limit filtered in
  match last batch with
  | Some u => (batch, {| updates := updates s; lastServedUpdateId := update_id u |})
  | None => (batch, s)
  end.

Definition defaultLimit : nat := 10.

(** [updates.sort((a, b) => a.update_id - b.update_id)]: the sort is
    stable, so the outcome is that of sorting by insertion, an update
    going before the later ones of the same id. *)
Fixpoint insertUpdate (u : TelegramUpdate) (l : list TelegramUpdate)
  : list TelegramUpdate :=
  match l with
  | [] => [u]
  | v :: l' => if update_id u <=? update_id v then u :: l
               else v :: insertUpdate u l'
  end.

Definition sortUpdates (l : list TelegramUpdate) : list TelegramUpdate :=
  foldr insertUpdate [] l.

(** The body of an injection request: either field may be missing. *)
Record Body : Type := {
  body_update_id : option Z;
  body_chat_id : option string;
  body_payload : option Payload
}.

Inductive Response : Type :=
| InvalidUpdateFormat
| Injected (totalUpdates : nat).

(** The [inject] action of [handleControlPost], lines 207-216. *)
Definition inject (body : Body) (s : Server) : Response * Server :=
  match body_update_id body, body_payload body with
  | Some id, Some p =>
      if id =? 0 then (InvalidUpdateFormat, s)
      else
        let update := {| update_id := id; chat_id := body_chat_id body;
                         payload := p |} in
        let updates' := sortUpdates (updates s ++ [update])%list in
        (Injected (length updates'),
         {| updates := updates'; lastServedUpdateId := lastServedUpdateId s |})
  | _, _ => (InvalidUpdateFormat, s)
  end.

(** The store after [loadFixtures] has read a list of updates. *)
Definition loadFixtures (fixtures : list TelegramUpdate) : Server :=
  {| updates := sortUpdates fixtures; lastServedUpdateId := 0 |}.

(** Requests that change the store: [GET /updates?since=N],
    [POST /_control?action=inject] and [GET /_control?action=reset]. *)
Inductive Request : Type :=
| Poll (since : Z)
| Inject (body : Body)
| Reset.

Definition serve (s : Server) (r : Request) : Server :=
  match r with
  | Poll since => snd (getNextUpdates since defaultLimit s)
  | Inject body => snd (inject body s)
  | Reset => {| updates := updates s; lastServedUpdateId := 0 |}
  end.

(** The update an injection request adds, if it is accepted. *)
Definition accepted (r : Request) : list TelegramUpdate :=
  match r with
  | Inject body =>
      match body_update_id body, body_payload body with
      | Some id, Some p =>
          if id =? 0 then []
          else [{| update_id := id; chat_id := body_chat_id body; payload := p |}]
      | _, _ => []
      end
  | Poll _ | Reset => []
  end.

Definition ids (l : list TelegramUpdate) : list Z := map update_id l.

Definition ascending (l : list TelegramUpdate) : Prop :=
  StronglySorted Z.le (ids l).

Definition strictly_ascending (l : list TelegramUpdate) : Prop :=
  StronglySorted Z.lt (ids l).

End WithPayload.

Arguments update_id {Payload} _.
Arguments chat_id {Payload} _.
Arguments payload {Payload} _.
Arguments updates {Payload} _.
Arguments lastServedUpdateId {Payload} _.
Arguments newer {Payload} since u.
Arguments getNextUpdates {Payload} since limit s.
Arguments insertUpdate {Payload} u l.
Arguments sortUpdates {Payload} l.
Arguments body_update_id {Payload} _.
Arguments body_chat_id {Payload} _.
Arguments body_payload {Payload} _.
Arguments inject {Payload} body s.
Arguments loadFixtures {Payload} fixtures.
Arguments Poll {Payload} since.
Arguments Inject {Payload} body.
Arguments Reset {Payload}.
Arguments serve {Payload} s r.
Arguments accepted {Payload} r.
Arguments ids {Payload} l.
Arguments ascending {Payload} l.
Arguments strictly_ascending {Payload} l.

End Mock.

(** ** Examples for the formatting, configuration and mock-server
    functions *)

(** Lower-casing of the letters A-Z, as [toLowerCase] does on them. *)
Definition lowerAscii (s : JS.str) : JS.str :=
  map (fun c => if ((65 <=? c) && (c <=? 90))%N then (c + 32)%N else c) s.

Definition demo_tool (status : Format.Status) (fields : list (string * string))
  : Format.ToolState :=
  Format.mkToolState status
    (list_to_map (map (fun kv => (fst kv, JS.lit (snd kv))) fields)) None None None.

Definition demo_read : Format.ToolState :=
  demo_tool Format.Completed [("filePath", "src/a_b.ts")].

Definition demo_edit : Format.ToolState := demo_tool Format.Completed [].

Definition demo_webfetch : Format.ToolState :=
  demo_tool Format.Completed [("url", "https://example.com/a_b")].

Definition demo_bash : Format.ToolState :=
  demo_tool Format.Running [("command", "ls -la"); ("description", "List files")].

Definition demo_todos : Format.ToolState :=
  Format.mkToolState Format.Completed ∅
    (Some [ Format.mkTodo (JS.lit "Plan") (JS.lit "completed");
            Format.mkTodo (JS.lit "Build it") (JS.lit "in_progress");
            Format.mkTodo (JS.lit "Ship") (JS.lit "in_progress") ])
    None None.

Definition demo_join (parts : list string) : string := String.concat "/" parts.

Definition demo_files (path : string) : @Config.FileOutcome Decimal.runtime :=
  if String.eqb path "/home/u/.config/opencode/telegram.json" then
    Config.Parsed {[ "botToken" := Config.JText "home-token";
                     "chatId" := Config.JText "-100" ]}
  else if String.eqb path "/proj/.opencode/telegram.json" then
    Config.Parsed {[ "chatId" := Config.JText "-200";
                     "threadId" := Config.JNumber (Some 7) ]}
  else Config.NoConfig.

Definition demo_config_env : gmap string string :=
  {[ "HOME" := "/home/u";
     "TELEGRAM_BOT_TOKEN" := "env-token";
     "TELEGRAM_THREAD_ID" := "12" ]}.



Definition demo_update (id : Z) : Mock.TelegramUpdate string :=
  {| Mock.update_id := id; Mock.chat_id := None; Mock.payload := "hello" |}.

Definition demo_store : Mock.Server string :=
  Mock.loadFixtures [demo_update 3; demo_update 1; demo_update 2].

Definition demo_body : Mock.Body string :=
  {| Mock.body_update_id := Some 2; Mock.body_chat_id := Some "-100";
     Mock.body_payload := Some "again" |}.

(** ** Further vocabulary for the supervisor *)

Section SupervisorVocabulary.

Context `{RT : JSRuntime}.



Definition is_kill (fx : Effect) : bool :=
  match fx with
  | FxKill _ _ => true
  | _ => false
  end.

Definition count_kills (fxs : list Effect) : nat :=
  length (List.filter is_kill fxs).

(** The events that may send a signal: [stopServer()], and a [kill()]
    by a holder of a handle. *)
Definition may_kill (ev : Event) : bool :=
  match ev with
  | CallStop | HandleKill _ => true
  | _ => false
  end.

(** Child [child] was spawned as [serve --port p] in [dir]. *)
Definition launched (s : Store) (child : pid) (p : number) (dir : string) : Prop :=
  exists ch, children s !! child = Some ch
             /\ spawnargs ch = ["serve"; "--port"; toString p]
             /\ cwd ch = dir.

(** What is known of the children spawned so far. *)
Definition Launches : Type := pid -> number -> string -> Prop.

Definition launches_le (ok ok' : Launches) : Prop :=
  forall child p dir, ok child p dir -> ok' child p dir.

(** The instance tells the truth about the child it holds: the child
    serves the instance's port in the instance's directory, and both
    clients are bound to that port on the loopback address. *)
Definition describes_child (ok : Launches) (srv : OpenCodeServer) : Prop :=
  ok (process srv) (port srv) (directory srv)
  /\ client srv = createOpencodeClient ("http://127.0.0.1:" ++ toString (port srv))
  /\ clientV2 srv = createOpencodeClientV2 ("http://127.0.0.1:" ++ toString (port srv)).

(** [tidy Q ok m]: [m] never kills, writes to the slot only instances
    that describe a child known to be launched, and returns a result
    satisfying [Q]. *)
Definition tidy_pre (ok : Launches) (op : SyncOp) : Prop :=
  match op with
  | WriteServer (Some srv) => describes_child ok srv
  | Kill _ => False
  | _ => True
  end.

Definition tidy_post (ok : Launches) (op : SyncOp) : sync_result op -> Prop :=
  match op return sync_result op -> Prop with
  | ReadServer => fun current => forall srv, current = Some srv -> describes_child ok srv
  | Spawn _ args dir _ =>
      fun child => forall p, args = ["serve"; "--port"; toString p] -> ok child p dir
  | _ => fun _ => True
  end.

Fixpoint tidy {A : Type} (Q : Launches -> A -> Prop) (ok : Launches) (m : Async A) : Prop :=
  match m with
  | Ret a => Q ok a
  | Throw _ => True
  | Do op k =>
      tidy_pre ok op
      /\ forall ok' x, launches_le ok ok' -> tidy_post ok' op x -> tidy Q ok' (k x)
  | Await op k => forall ok' x, launches_le ok ok' -> tidy Q ok' (k x)
  end.

Definition store_tidy (s : Store) : Prop :=
  (forall srv, server s = Some srv -> describes_child (launched s) srv)
  /\ (forall fx srv, In fx (trace s) -> exposed fx = Some srv ->
                     describes_child (launched s) srv).

Definition world_tidy (w : World) : Prop :=
  store_tidy (store w)
  /\ (forall t task, tasks w !! t = Some task ->
        forall ok' x, launches_le (launched (store w)) ok' ->
                      tidy describes_child ok' (resume task x)).



End SupervisorVocabulary.

Section Properties.

Context `{RT : JSRuntime}.

Local Open Scope list_scope.

(** Nested updates of the store are brought to one record. *)
Ltac flatten_store :=
  simpl; unfold record, extend, set_server, set_children; simpl;
  rewrite <- ?app_assoc; simpl.

Lemma run_startServer_reuse (s : Store) (dir : string) (srv : OpenCodeServer) :
  reusable s srv ->
  run (startServer dir) s = (record (reuse_log dir srv) s, Finished (inr srv)).
Proof.
  intros [Hsrv Hk]. unfold startServer. simpl. rewrite Hsrv. simpl.
  rewrite Hk. reflexivity.
Qed.

Lemma run_startServer_fresh (s : Store) (dir : string) :
  (forall srv, ~ reusable s srv) ->
  run (startServer dir) s = run (startFresh dir) s.
Proof.
  intros Hno. unfold startServer. simpl.
  destruct (server s) as [srv|] eqn:Hsrv; [|reflexivity].
  simpl. destruct (is_killed s (process srv)) eqn:Hk; [reflexivity|].
  exfalso. apply (Hno srv). split; assumption.
Qed.

Lemma run_bind {A B : Type} (m : Async A) (f : A -> Async B) (s : Store) :
  run (bind m f) s
  = match run m s with
    | (s', Finished (inr a)) => run (f a) s'
    | (s', Finished (inl e)) => (s', Finished (inl e))
    | (s', Suspended op k) => (s', Suspended op (fun x => bind (k x) f))
    end.
Proof.
  revert s. induction m as [a|e|op k IH|op k IH]; intros s; simpl; try reflexivity.
  destruct (perform op s) as [s' x]. apply IH.
Qed.

Lemma record_record (s : Store) (a b : Effect) :
  record b (record a s)
  = mkStore (server s) (env s) (accessible s) (children s) (trace s ++ [a; b]).
Proof. unfold record. simpl. rewrite <- app_assoc. reflexivity. Qed.

Lemma run_spawnServer (dir : string) (p : number) (s : Store) :
  run (spawnServer dir p) s = (spawned dir p s, Finished (inr (length (children s)))).
Proof.
  unfold spawnServer, spawned. simpl. unfold record, set_children. simpl.
  rewrite alter_app_r_alt by lia. rewrite Nat.sub_diag. simpl.
  rewrite <- !app_assoc. reflexivity.
Qed.

Lemma run_waitForServer_default (p : number) (s : Store) :
  exists k, run (waitForServer p defaultMaxAttempts) s
            = (s, Suspended (Fetch (probe_url p) 2000) k).
Proof. eexists. reflexivity. Qed.

Lemma spawned_invocation (dir : string) (p : number) (s : Store) :
  exists ch,
    trace (spawned dir p s)
    = trace s ++ [starting_log dir p;
                  FxSpawn (length (children s)) ch;
                  FxOnExit (length (children s)) dir]
    /\ children (spawned dir p s) = children s ++ [with_listener dir ch]
    /\ serve_invocation (env s) dir p ch.
Proof.
  eexists. split; [reflexivity|]. split; [reflexivity|].
  unfold serve_invocation, opencodePath, truthy_string. simpl.
  repeat split.
  destruct (env s !! "OPENCODE_PATH") as [path|]; [|reflexivity].
  destruct (String.eqb path ""); reflexivity.
Qed.

(** Once the port is known, the function spawns and suspends on the
    first probe. *)
Lemma run_after_port (dir : string) (p : number) (s : Store) :
  exists k,
    run (let! serverProcess := spawnServer dir p in
         do! waitForServer p defaultMaxAttempts in
         publish dir p serverProcess) s
    = (spawned dir p s, Suspended (Fetch (probe_url p) 2000) k).
Proof.
  rewrite run_bind, run_spawnServer. rewrite run_bind.
  destruct (run_waitForServer_default p (spawned dir p s)) as [k Hk].
  rewrite Hk. eexists. reflexivity.
Qed.

Lemma truthy_number_spec (n : number) :
  truthy_number n && negb (Number_isNaN n) = true
  <-> Number_isNaN n = false /\ is_zero n = false.
Proof.
  unfold truthy_number.
  destruct (is_zero n), (Number_isNaN n); simpl; intuition congruence.
Qed.

Lemma getOpenPort_not_Ret (n : number) : getOpenPort <> Ret n.
Proof. unfold getOpenPort. simpl. discriminate. Qed.

(** Line 252 takes the port from the environment exactly when the
    variable is set to a string whose number is neither NaN nor zero;
    in every other case it is [getOpenPort()]. *)
Lemma resolvePort_spec (e : gmap string string) :
  (forall n, resolvePort e = Ret n
             <-> exists v, e !! "OPENCODE_PORT" = Some v /\ n = Number v
                           /\ Number_isNaN n = false /\ is_zero n = false)
  /\ ((forall v, e !! "OPENCODE_PORT" = Some v ->
                 Number_isNaN (Number v) = true \/ is_zero (Number v) = true)
      -> resolvePort e = getOpenPort).
Proof.
  unfold resolvePort, parsedPort, truthy_string.
  destruct (e !! "OPENCODE_PORT") as [v|] eqn:Hv.
  - destruct (String.eqb_spec v "") as [->|Hne]; simpl.
    + split.
      * intros n. split.
        -- intros H. exfalso. exact (getOpenPort_not_Ret n H).
        -- intros (v' & Hv' & -> & _ & Hz). inversion Hv'; subst v'.
           rewrite Number_empty in Hz. discriminate.
      * reflexivity.
    + destruct (truthy_number (Number v) && negb (Number_isNaN (Number v))) eqn:Ht.
      * apply truthy_number_spec in Ht. split.
        -- intros n. split.
           ++ intros H. inversion H; subst n. exists v. tauto.
           ++ intros (v' & Hv' & -> & _). inversion Hv'; subst v'. reflexivity.
        -- intros H. destruct (H v eq_refl) as [Hn|Hz]; destruct Ht; congruence.
      * split; [|reflexivity].
        intros n. split.
        -- intros H. exfalso. exact (getOpenPort_not_Ret n H).
        -- intros (v' & Hv' & -> & Hn & Hz). inversion Hv'; subst v'.
           assert (Ht' : truthy_number (Number v) && negb (Number_isNaN (Number v)) = true)
             by (apply truthy_number_spec; tauto).
           congruence.
  - split; [|reflexivity].
    intros n. split.
    + intros H. exfalso. exact (getOpenPort_not_Ret n H).
    + intros (v' & Hv' & _). discriminate.
Qed.

Lemma resolvePort_cases (e : gmap string string) :
  (exists n, resolvePort e = Ret n) \/ resolvePort e = getOpenPort.
Proof.
  unfold resolvePort. destruct (parsedPort e) as [n|]; [|right; reflexivity].
  destruct (truthy_number n && negb (Number_isNaN n)); [left; eauto|right; reflexivity].
Qed.

Lemma run_startFresh_accessible (dir : string) (s : Store) :
  dir ∈ accessible s ->
  run (startFresh dir) s
  = run (let! p := resolvePort (env s) in
         let! serverProcess := spawnServer dir p in
         do! waitForServer p defaultMaxAttempts in
         publish dir p serverProcess) (record (FxAccess dir true) s).
Proof.
  intros Hin. unfold startFresh. simpl.
  rewrite (bool_decide_eq_true_2 _ Hin). reflexivity.
Qed.

(** C2. While the slot holds an instance whose process handle is not
    marked killed, [startServer] with any directory returns that very
    instance: the world is unchanged but for the log line and the
    resolution of the call, so no port is allocated, no process is
    spawned and nothing is left in flight. *)
Theorem start_returns_live_instance
  (w : World) (c : nat) (dir : string) (srv : OpenCodeServer) :
  reusable (store w) srv ->
  step w (CallStart c dir)
  = with_store (fun s => record (FxResolved c srv) (record (reuse_log dir srv) s)) w
  /\ server (store (step w (CallStart c dir))) = Some srv
  /\ children (store (step w (CallStart c dir))) = children (store w)
  /\ tasks (step w (CallStart c dir)) = tasks w.
Proof.
  intros Hlive.
  assert (Hstep : step w (CallStart c dir)
    = with_store (fun s => record (FxResolved c srv) (record (reuse_log dir srv) s)) w).
  { unfold step, launch. rewrite (run_startServer_reuse _ dir _ Hlive). reflexivity. }
  rewrite Hstep. repeat split. simpl. apply Hlive.
Qed.

(** C9. With no instance to reuse and an accessible directory:
    when [OPENCODE_PORT] is set to a string whose number is neither NaN
    nor zero, [startServer] spawns for that number at once, without
    allocating, and goes on to probe it; in every other case (variable
    unset, not a number, or zero) it does not fail but suspends on the
    allocation of a port by the system, nothing being spawned yet.  The
    port is taken from the environment in no other case. *)
Theorem env_port_used_iff_valid (s : Store) (dir : string) :
  (forall srv, ~ reusable s srv) ->
  dir ∈ accessible s ->
  (forall v, env s !! "OPENCODE_PORT" = Some v ->
             Number_isNaN (Number v) = false -> is_zero (Number v) = false ->
     exists k ch,
       run (startServer dir) s
       = (spawned dir (Number v) (record (FxAccess dir true) s),
          Suspended (Fetch (probe_url (Number v)) 2000) k)
       /\ trace (spawned dir (Number v) (record (FxAccess dir true) s))
          = trace s ++ [FxAccess dir true; starting_log dir (Number v);
                        FxSpawn (length (children s)) ch;
                        FxOnExit (length (children s)) dir]
       /\ spawnargs ch = ["serve"; "--port"; toString (Number v)])
  /\ ((forall v, env s !! "OPENCODE_PORT" = Some v ->
                 Number_isNaN (Number v) = true \/ is_zero (Number v) = true) ->
      exists k,
        run (startServer dir) s
        = (record (FxAccess dir true) s, Suspended (Listen 0) k))
  /\ (forall n, resolvePort (env s) = Ret n
                <-> exists v, env s !! "OPENCODE_PORT" = Some v /\ n = Number v
                              /\ Number_isNaN n = false /\ is_zero n = false).
Proof.
  intros Hno Hin.
  destruct (resolvePort_spec (env s)) as [Hiff Hfall].
  split; [|split].
  - intros v Hv Hn Hz.
    assert (Hres : resolvePort (env s) = Ret (Number v)).
    { apply Hiff. exists v. tauto. }
    rewrite (run_startServer_fresh _ _ Hno), (run_startFresh_accessible _ _ Hin).
    rewrite Hres. simpl bind.
    destruct (run_after_port dir (Number v) (record (FxAccess dir true) s)) as [k Hk].
    destruct (spawned_invocation dir (Number v) (record (FxAccess dir true) s))
      as (ch & Htr & _ & _ & Hargs & _).
    exists k, ch. split; [exact Hk|]. split; [|exact Hargs].
    rewrite Htr. simpl. rewrite <- app_assoc. reflexivity.
  - intros Hbad.
    rewrite (run_startServer_fresh _ _ Hno), (run_startFresh_accessible _ _ Hin).
    rewrite (Hfall Hbad). eexists. reflexivity.
  - exact Hiff.
Qed.

(** C6 (amended). With no instance to reuse, [startServer] on a
    directory that is not readable and executable throws the directory
    error straight after the access check: the check is the only effect,
    so no port is allocated, no process is spawned, the slot keeps its
    value and nothing stays in flight. *)
Theorem inaccessible_directory_rejected_first
  (w : World) (c : nat) (dir : string) :
  (forall srv, ~ reusable (store w) srv) ->
  dir ∉ accessible (store w) ->
  run (startServer dir) (store w)
  = (record (FxAccess dir false) (store w), Finished (inl (DirectoryNotAccessible dir)))
  /\ step w (CallStart c dir)
     = with_store (extend [FxAccess dir false;
                           FxRejected c (DirectoryNotAccessible dir)]) w.
Proof.
  intros Hno Hout.
  assert (Hrun : run (startServer dir) (store w)
    = (record (FxAccess dir false) (store w), Finished (inl (DirectoryNotAccessible dir)))).
  { rewrite (run_startServer_fresh _ _ Hno). unfold startFresh. simpl.
    rewrite (bool_decide_eq_false_2 _ Hout). reflexivity. }
  split; [exact Hrun|].
  unfold step, launch. rewrite Hrun. unfold with_store, settle.
  rewrite record_record. reflexivity.
Qed.

(** C10. The reuse test comes first: while an instance can be reused,
    [startServer] on a directory that is not accessible resolves with
    that instance, and the directory is not even checked.  Conversely,
    whenever [startServer] throws the directory error, the store it ran
    in held no reusable instance (and the directory was the requested
    one, and not accessible). *)
Theorem reuse_precedes_directory_check (w : World) (c : nat) (dir : string) :
  (forall srv, reusable (store w) srv -> dir ∉ accessible (store w) ->
     step w (CallStart c dir)
     = with_store (extend [reuse_log dir srv; FxResolved c srv]) w)
  /\ (forall s' d,
        run (startServer dir) (store w) = (s', Finished (inl (DirectoryNotAccessible d))) ->
        (forall srv, ~ reusable (store w) srv)
        /\ d = dir /\ dir ∉ accessible (store w)).
Proof.
  split.
  - intros srv Hlive _. unfold step, launch.
    rewrite (run_startServer_reuse _ dir _ Hlive). unfold with_store, settle.
    rewrite record_record. reflexivity.
  - intros s' d Hrun.
    assert (Hno : forall srv, ~ reusable (store w) srv).
    { intros srv Hlive. rewrite (run_startServer_reuse _ dir _ Hlive) in Hrun.
      discriminate. }
    split; [exact Hno|].
    rewrite (run_startServer_fresh _ _ Hno) in Hrun.
    destruct (decide (dir ∈ accessible (store w))) as [Hin|Hout].
    + exfalso. rewrite (run_startFresh_accessible _ _ Hin) in Hrun.
      destruct (resolvePort_cases (env (store w))) as [[n Hn]|Hn]; rewrite Hn in Hrun.
      * destruct (run_after_port dir n (record (FxAccess dir true) (store w))) as [k Hk].
        assert (Heq : (spawned dir n (record (FxAccess dir true) (store w)),
                       Suspended (Fetch (probe_url n) 2000) k)
                      = (s', Finished (inl (DirectoryNotAccessible d)))).
        { rewrite <- Hk. exact Hrun. }
        discriminate.
      * simpl in Hrun. discriminate.
    + unfold startFresh in Hrun. simpl in Hrun.
      rewrite (bool_decide_eq_false_2 _ Hout) in Hrun. simpl in Hrun.
      inversion Hrun; subst. split; [reflexivity|exact Hout].
Qed.

(** C7. With no instance to reuse and an accessible directory, every
    path of [startServer] to a spawn (at once when the port comes from
    the environment, after the socket has been opened and closed when
    the system chose it) spawns one child as the specification says:
    the binary of [OPENCODE_PATH] or else the default under the home
    directory, the arguments [serve --port <port>] for the resolved
    port, the requested directory as working directory, and the
    environment of the supervisor plus [OPENCODE_CONFIG_CONTENT] holding
    the JSON text of the configuration: the schema, [lsp] and
    [formatter] false, and [edit], [bash] and [webfetch] allowed. *)
Theorem fresh_spawn_invocation (s : Store) (dir : string) :
  (forall srv, ~ reusable s srv) ->
  dir ∈ accessible s ->
  (forall n, resolvePort (env s) = Ret n ->
     exists k ch,
       run (startServer dir) s
       = (spawned dir n (record (FxAccess dir true) s),
          Suspended (Fetch (probe_url n) 2000) k)
       /\ trace (spawned dir n (record (FxAccess dir true) s))
          = trace s ++ [FxAccess dir true; starting_log dir n;
                        FxSpawn (length (children s)) ch;
                        FxOnExit (length (children s)) dir]
       /\ serve_invocation (env s) dir n ch)
  /\ ((forall n, resolvePort (env s) <> Ret n) ->
      exists k1,
        run (startServer dir) s
        = (record (FxAccess dir true) s, Suspended (Listen 0) k1)
        /\ forall n s2, exists k2,
             run (k1 (Listening (AddrInfo n))) s2 = (s2, Suspended Close k2)
             /\ forall s3, exists k3 ch,
                  run (k2 tt) s3
                  = (spawned dir n s3, Suspended (Fetch (probe_url n) 2000) k3)
                  /\ trace (spawned dir n s3)
                     = trace s3 ++ [starting_log dir n;
                                    FxSpawn (length (children s3)) ch;
                                    FxOnExit (length (children s3)) dir]
                  /\ serve_invocation (env s3) dir n ch)
  /\ JSON_stringify opencodeConfig
     = ("{" ++ quote_json "$schema" ++ ":" ++ quote_json "https://opencode.ai/config.json"
        ++ "," ++ quote_json "lsp" ++ ":false"
        ++ "," ++ quote_json "formatter" ++ ":false"
        ++ "," ++ quote_json "permission" ++ ":{"
        ++ quote_json "edit" ++ ":" ++ quote_json "allow" ++ ","
        ++ quote_json "bash" ++ ":" ++ quote_json "allow" ++ ","
        ++ quote_json "webfetch" ++ ":" ++ quote_json "allow" ++ "}}")%string.
Proof.
  intros Hno Hin.
  rewrite (run_startServer_fresh _ _ Hno), (run_startFresh_accessible _ _ Hin).
  split; [|split].
  - intros n Hn. rewrite Hn. simpl bind.
    destruct (run_after_port dir n (record (FxAccess dir true) s)) as [k Hk].
    destruct (spawned_invocation dir n (record (FxAccess dir true) s))
      as (ch & Htr & _ & Hinv).
    exists k, ch. split; [exact Hk|]. split; [|exact Hinv].
    rewrite Htr. simpl. rewrite <- app_assoc. reflexivity.
  - intros Hnot.
    destruct (resolvePort_cases (env s)) as [[n Hn]|Hn];
      [exfalso; exact (Hnot n Hn)|].
    rewrite Hn. eexists. split; [reflexivity|].
    intros n s2. eexists. split; [reflexivity|].
    intros s3. simpl.
    destruct (run_after_port dir n s3) as [k Hk].
    destruct (spawned_invocation dir n s3) as (ch & Htr & _ & Hinv).
    exists k, ch. split; [exact Hk|]. split; [exact Htr|exact Hinv].
  - reflexivity.
Qed.

Lemma extend_extend (l1 l2 : list Effect) (s : Store) :
  extend l2 (extend l1 s) = extend (l1 ++ l2) s.
Proof. unfold extend. simpl. rewrite <- app_assoc. reflexivity. Qed.

Lemma extend_nil (s : Store) : extend [] s = s.
Proof. destruct s. unfold extend. simpl. rewrite app_nil_r. reflexivity. Qed.

(** C8. [getOpenPort] asks for a listening socket on port 0.  When the
    system reports the socket as listening with an address record, the
    socket is closed and the function resolves with exactly the port of
    that record.  When the system refuses, the function rejects with the
    socket's error; when the address is not a record, it rejects with
    [Failed to get port] (the socket is then not closed).  In each case
    the store is unchanged but for these requests on the trace. *)
Theorem getOpenPort_allocates (s : Store) (script : list Answer) :
  (forall p,
     exec getOpenPort (AListen (Listening (AddrInfo p)) :: AClosed :: script) s
     = (extend [FxAwait (Listen 0);
                FxAnswer (Listen 0) (AListen (Listening (AddrInfo p)));
                FxAwait Close;
                FxAnswer Close AClosed] s,
        Settled (inr p)))
  /\ (forall e,
        exec getOpenPort (AListen (ListenFailed e) :: script) s
        = (extend [FxAwait (Listen 0);
                   FxAnswer (Listen 0) (AListen (ListenFailed e))] s,
           Settled (inl (SocketError e))))
  /\ (forall path,
        exec getOpenPort (AListen (Listening (AddrPipe path)) :: script) s
        = (extend [FxAwait (Listen 0);
                   FxAnswer (Listen 0) (AListen (Listening (AddrPipe path)))] s,
           Settled (inl FailedToGetPort)))
  /\ exec getOpenPort (AListen (Listening AddrNull) :: script) s
     = (extend [FxAwait (Listen 0);
                FxAnswer (Listen 0) (AListen (Listening AddrNull))] s,
        Settled (inl FailedToGetPort)).
Proof.
  unfold getOpenPort. simpl.
  repeat split; intros; flatten_store; reflexivity.
Qed.

Lemma exec_failed_attempt (p : number) (maxAttempts r : nat) (o : FetchOutcome)
  (rest : list Answer) (s : Store) :
  failing o ->
  exec (waitForServer_from p maxAttempts (S r)) (AFetch o :: ATimer :: rest) s
  = exec (waitForServer_from p maxAttempts r) rest (extend (failed_attempt p o) s).
Proof.
  intros Hfail. simpl.
  assert (Hready : match o with Response status => status <? 500 | FetchRejected => false end
                   = false).
  { destruct o as [status|]; [|reflexivity]. simpl in Hfail. apply Z.ltb_ge. exact Hfail. }
  rewrite Hready. simpl. f_equal. unfold failed_attempt. flatten_store. reflexivity.
Qed.

Lemma exec_ready_attempt (p : number) (maxAttempts r : nat) (status : Z)
  (rest : list Answer) (s : Store) :
  status < 500 ->
  exec (waitForServer_from p maxAttempts (S r)) (AFetch (Response status) :: rest) s
  = (extend [FxAwait (Fetch (probe_url p) 2000);
             FxAnswer (Fetch (probe_url p) 2000) (AFetch (Response status))] s,
     Settled (inr true)).
Proof.
  intros Hlt. simpl. apply Z.ltb_lt in Hlt. rewrite Hlt. simpl.
  flatten_store. reflexivity.
Qed.

Lemma waitForServer_from_ready (p : number) (maxAttempts : nat) (status : Z)
  (rest : list Answer) (fails : list FetchOutcome) :
  status < 500 ->
  Forall failing fails ->
  forall (r : nat) (s : Store),
    (length fails < r)%nat ->
    exec (waitForServer_from p maxAttempts r)
         (flat_map failed_attempt_answers fails ++ AFetch (Response status) :: rest) s
    = (extend (flat_map (failed_attempt p) fails
               ++ [FxAwait (Fetch (probe_url p) 2000);
                   FxAnswer (Fetch (probe_url p) 2000) (AFetch (Response status))]) s,
       Settled (inr true)).
Proof.
  intros Hlt Hfails. induction Hfails as [|o fails Ho _ IH]; intros r s Hlen.
  - destruct r as [|r]; [simpl in Hlen; lia|].
    simpl flat_map. simpl app. apply exec_ready_attempt. exact Hlt.
  - destruct r as [|r]; [simpl in Hlen; lia|].
    change (flat_map failed_attempt_answers (o :: fails) ++ AFetch (Response status) :: rest)
      with (AFetch o :: ATimer
            :: (flat_map failed_attempt_answers fails ++ AFetch (Response status) :: rest)).
    rewrite (exec_failed_attempt _ _ _ _ _ _ Ho).
    rewrite IH by (simpl in Hlen; lia).
    rewrite extend_extend. reflexivity.
Qed.

Lemma waitForServer_from_exhausted (p : number) (maxAttempts : nat)
  (rest : list Answer) (fails : list FetchOutcome) :
  Forall failing fails ->
  forall s : Store,
    exec (waitForServer_from p maxAttempts (length fails))
         (flat_map failed_attempt_answers fails ++ rest) s
    = (extend (flat_map (failed_attempt p) fails) s,
       Settled (inl (ServerDidNotStart p maxAttempts))).
Proof.
  intros Hfails. induction Hfails as [|o fails Ho _ IH]; intros s.
  - simpl. rewrite extend_nil. reflexivity.
  - change (flat_map failed_attempt_answers (o :: fails) ++ rest)
      with (AFetch o :: ATimer :: (flat_map failed_attempt_answers fails ++ rest)).
    simpl length. rewrite (exec_failed_attempt _ _ _ _ _ _ Ho).
    rewrite IH. rewrite extend_extend. reflexivity.
Qed.

Lemma count_fetches_app (l1 l2 : list Effect) :
  count_fetches (l1 ++ l2) = (count_fetches l1 + count_fetches l2)%nat.
Proof. unfold count_fetches. rewrite List.filter_app, length_app. reflexivity. Qed.

Lemma waitForServer_from_bounded (p : number) (maxAttempts : nat) :
  forall (r : nat) (script : list Answer) (s : Store),
  exists added,
    fst (exec (waitForServer_from p maxAttempts r) script s) = extend added s
    /\ (count_fetches added <= r)%nat
    /\ Forall (probe_or_delay p) added.
Proof.
  assert (Hp : forall a, probe_or_delay p (FxAwait (Fetch (probe_url p) 2000))
                         /\ probe_or_delay p (FxAnswer (Fetch (probe_url p) 2000) a)
                         /\ probe_or_delay p (FxAwait (SetTimeout 1000))
                         /\ probe_or_delay p (FxAnswer (SetTimeout 1000) a)).
  { intros a. unfold probe_or_delay, probe_url. tauto. }
  assert (Hone : forall (s : Store) (r : nat),
            exists added,
              record (FxAwait (Fetch (probe_url p) 2000)) s = extend added s
              /\ (count_fetches added <= S r)%nat /\ Forall (probe_or_delay p) added).
  { intros s r. exists [FxAwait (Fetch (probe_url p) 2000)].
    split; [reflexivity|]. split; [unfold count_fetches; simpl; lia|].
    repeat (constructor; [apply (Hp ATimer)|]). constructor. }
  assert (Htwo : forall (s : Store) (r : nat) (o : FetchOutcome),
            exists added,
              record (FxAnswer (Fetch (probe_url p) 2000) (AFetch o))
                (record (FxAwait (Fetch (probe_url p) 2000)) s) = extend added s
              /\ (count_fetches added <= S r)%nat /\ Forall (probe_or_delay p) added).
  { intros s r o. exists [FxAwait (Fetch (probe_url p) 2000);
                          FxAnswer (Fetch (probe_url p) 2000) (AFetch o)].
    split; [flatten_store; reflexivity|]. split; [unfold count_fetches; simpl; lia|].
    repeat (constructor; [apply (Hp (AFetch o))|]). constructor. }
  assert (Hthree : forall (s : Store) (r : nat) (o : FetchOutcome),
            exists added,
              record (FxAwait (SetTimeout 1000))
                (record (FxAnswer (Fetch (probe_url p) 2000) (AFetch o))
                   (record (FxAwait (Fetch (probe_url p) 2000)) s)) = extend added s
              /\ (count_fetches added <= S r)%nat /\ Forall (probe_or_delay p) added).
  { intros s r o. exists [FxAwait (Fetch (probe_url p) 2000);
                          FxAnswer (Fetch (probe_url p) 2000) (AFetch o);
                          FxAwait (SetTimeout 1000)].
    split; [flatten_store; reflexivity|]. split; [unfold count_fetches; simpl; lia|].
    repeat (constructor; [apply (Hp (AFetch o))|]). constructor. }
  induction r as [|r IH]; intros script s.
  - exists []. simpl. rewrite extend_nil.
    split; [reflexivity|]. split; [unfold count_fetches; simpl; lia|constructor].
  - destruct script as [|a script]; [apply Hone|].
    destruct a as [o| |o|]; try apply Hone.
    simpl.
    destruct (match o with Response status => status <? 500 | FetchRejected => false end);
      [apply Htwo|].
    simpl.
    destruct script as [|b script]; [apply Hthree|].
    destruct b as [o'| |o'|]; try apply Hthree.
    simpl.
    destruct (IH script
                (record (FxAnswer (SetTimeout 1000) ATimer)
                   (record (FxAwait (SetTimeout 1000))
                      (record (FxAnswer (Fetch (probe_url p) 2000) (AFetch o))
                         (record (FxAwait (Fetch (probe_url p) 2000)) s)))))
      as (added & Hadd & Hcount & Hall).
    exists (failed_attempt p o ++ added).
    split.
    { rewrite Hadd. unfold failed_attempt. flatten_store. reflexivity. }
    split.
    { rewrite count_fetches_app. unfold failed_attempt, count_fetches at 1. simpl. lia. }
    apply Forall_app. split; [|exact Hall].
    unfold failed_attempt.
    repeat (constructor; [apply (Hp (AFetch o))|]). constructor.
Qed.

(** C5. [waitForServer(port, maxAttempts)] only issues probes of the
    session path of the port, each with a timeout of 2000 ms, and
    delays of 1000 ms, and never more than [maxAttempts] probes,
    whatever the platform answers.  If the first response with a status
    below 500 comes at an attempt within the budget, every earlier
    attempt having failed and been followed by the delay, the function
    returns [true] right after that response (at the first attempt when
    no attempt failed).  If [maxAttempts] attempts fail, the function
    has probed [maxAttempts] times and throws the error that carries
    the port and [maxAttempts]. *)
Theorem waitForServer_bounded_probing (p : number) (maxAttempts : nat) (s : Store) :
  (forall script, exists added,
      fst (exec (waitForServer p maxAttempts) script s) = extend added s
      /\ (count_fetches added <= maxAttempts)%nat
      /\ Forall (probe_or_delay p) added)
  /\ (forall fails status rest,
        Forall failing fails -> (length fails < maxAttempts)%nat -> status < 500 ->
        exec (waitForServer p maxAttempts)
             (flat_map failed_attempt_answers fails ++ AFetch (Response status) :: rest) s
        = (extend (flat_map (failed_attempt p) fails
                   ++ [FxAwait (Fetch (probe_url p) 2000);
                       FxAnswer (Fetch (probe_url p) 2000) (AFetch (Response status))]) s,
           Settled (inr true)))
  /\ (forall fails rest,
        Forall failing fails -> length fails = maxAttempts ->
        exec (waitForServer p maxAttempts)
             (flat_map failed_attempt_answers fails ++ rest) s
        = (extend (flat_map (failed_attempt p) fails) s,
           Settled (inl (ServerDidNotStart p maxAttempts)))
        /\ count_fetches (flat_map (failed_attempt p) fails) = maxAttempts).
Proof.
  unfold waitForServer. split; [|split].
  - intros script. apply waitForServer_from_bounded.
  - intros fails status rest Hfails Hlen Hlt.
    apply waitForServer_from_ready; assumption.
  - intros fails rest Hfails Hlen. subst maxAttempts. split.
    + apply waitForServer_from_exhausted. exact Hfails.
    + clear. induction fails as [|o fails IH]; [reflexivity|].
      change (flat_map (failed_attempt p) (o :: fails))
        with (failed_attempt p o ++ flat_map (failed_attempt p) fails).
      rewrite count_fetches_app, IH. reflexivity.
Qed.

(** *** The logic of the functions *)


Lemma known_le_trans (a b c : Known) : known_le a b -> known_le b c -> known_le a c.
Proof. intros Hab Hbc u Hu. apply Hbc, Hab, Hu. Qed.

Lemma sync_pre_mono (ok ok' : Known) (op : SyncOp) :
  known_le ok ok' -> sync_pre ok op -> sync_pre ok' op.
Proof.
  intros Hle. destruct op as [|[srv|]| | | | | | |]; simpl; auto.
Qed.

Lemma guarded_mono {A : Type} (Q : Known -> A -> Prop) (ok ok' : Known) (m : Async A) :
  (forall ok1 ok2 a, known_le ok1 ok2 -> Q ok1 a -> Q ok2 a) ->
  known_le ok ok' -> guarded Q ok m -> guarded Q ok' m.
Proof.
  intros HQ Hle. destruct m as [a|e|op k|op k]; simpl.
  - apply HQ, Hle.
  - trivial.
  - intros [Hpre Hk]. split; [exact (sync_pre_mono _ _ _ Hle Hpre)|].
    intros ok2 x Hle2. apply Hk. exact (known_le_trans _ _ _ Hle Hle2).
  - intros Hk ok2 x Hle2. apply Hk.
    intros u Hu. apply Hle2. destruct op; simpl in *; try (apply Hle; exact Hu).
    destruct Hu as [Hu|Hu]; [left; apply Hle; exact Hu|right; exact Hu].
Qed.












(** *** The logic is sound for [run] *)









(** *** The invariant of the event loop *)














(** *** Exit of a child, and restarts *)







Lemma count_spawns_app (l1 l2 : list Effect) :
  count_spawns (l1 ++ l2) = (count_spawns l1 + count_spawns l2)%nat.
Proof. unfold count_spawns. rewrite List.filter_app, length_app. reflexivity. Qed.







(** *** The slot and the assignments on the trace *)














(** *** [stopServer] *)


Lemma stop_without_instance (w : World) :
  server (store w) = None -> step w CallStop = w.
Proof.
  intros Hnone. destruct w as [s ts n]. simpl in *. unfold with_store, stopServer.
  simpl. rewrite Hnone. reflexivity.
Qed.

(** [exec] proceeds as the event loop does: run up to the [await],
    record the request, take the answer, resume. *)
Lemma exec_run {A : Type} (m : Async A) :
  forall (script : list Answer) (s : Store),
    exec m script s
    = match run m s with
      | (s1, Finished r) => (s1, Settled r)
      | (s1, Suspended op k) =>
          match script with
          | [] => (record (FxAwait op) s1, Blocked op)
          | a :: rest =>
              match decode op a with
              | Some x => exec (k x) rest (record (FxAnswer op a) (record (FxAwait op) s1))
              | None => (record (FxAwait op) s1, Blocked op)
              end
          end
      end.
Proof.
  induction m as [a|e|op k IH|op k IH]; intros script s; simpl; try reflexivity.
  destruct (perform op s) as [s1 x]. apply IH.
Qed.

End Properties.


(** ** The properties on the example runs *)

Lemma demo_live_reusable : reusable (store demo_live) demo_server.
Proof. split; vm_compute; reflexivity. Defined.

Lemma demo_missing_not_accessible : "/missing" ∉ accessible (store demo_live).
Proof.
  apply (bool_decide_eq_false_1 ("/missing" ∈ accessible (store demo_live))).
  vm_compute. reflexivity.
Defined.

Lemma start_returns_live_instance_witness :
  reusable (store demo_live) demo_server
  /\ server (store (step demo_live (CallStart 1 "/elsewhere"))) = Some demo_server
  /\ children (store (step demo_live (CallStart 1 "/elsewhere")))
     = children (store demo_live)
  /\ tasks (step demo_live (CallStart 1 "/elsewhere")) = tasks demo_live.
Proof.
  split; [exact demo_live_reusable|].
  exact (proj2 (start_returns_live_instance demo_live 1 "/elsewhere" demo_server
                  demo_live_reusable)).
Defined.

(** C3 (the code departs from the claim).  A server is up; then
    [stopServer()] is called: the signal is sent and the slot cleared.
    The child ends by that signal, so its exit comes with a [null]
    code, and the exit listener, which only spares code [0], starts
    the server again: with no further call of [startServer], the slot
    holds a new instance, which [getServer()] returns. *)
Theorem stop_then_signal_exit_restarts :
  server (store demo_live) = Some demo_server
  /\ server (store (step demo_live CallStop)) = None
  /\ last (trace (store (step demo_live CallStop))) = Some (FxAssign None)
  /\ is_killed (store (step demo_live CallStop)) 0%nat = true
  /\ server (store (run_events demo_live demo_after_stop))
     = Some (demo_instance 1%nat 4097 "http://127.0.0.1:4097")
  /\ last (trace (store (run_events demo_live demo_after_stop)))
     = Some (FxGot 7 (Some (demo_instance 1%nat 4097 "http://127.0.0.1:4097")))
  /\ count_spawns (trace (store (run_events demo_live demo_after_stop))) = 2%nat.
Proof.
  split; [vm_compute; reflexivity|].
  split; [vm_compute; reflexivity|].
  split; [vm_compute; reflexivity|].
  split; [vm_compute; reflexivity|].
  split; [vm_compute; reflexivity|].
  split; vm_compute; reflexivity.
Qed.

(** C6, as stated, fails: a directory that is not accessible does not
    make [startServer] throw while an instance can be reused. *)
Lemma inaccessible_directory_with_live_instance :
("/missing" ∉ accessible (store demo_live))
  /\ run (startServer "/missing") (store demo_live)
     = (record (reuse_log "/missing" demo_server) (store demo_live),
        Finished (inr demo_server))
  /\ forall s',
       run (startServer "/missing") (store demo_live)
       <> (s', Finished (inl (DirectoryNotAccessible "/missing"))).
Proof.
  split; [exact demo_missing_not_accessible|].
  pose proof (run_startServer_reuse (store demo_live) "/missing" demo_server
                demo_live_reusable) as Hrun.
  split; [exact Hrun|].
  intros s' Hbad. rewrite Hrun in Hbad. discriminate.
Qed.

Lemma initial_not_reusable (e : gmap string string) (dirs : gset string) :
  forall srv, ~ reusable (store (initial e dirs)) srv.
Proof. intros srv [Hsrv _]. discriminate. Defined.

Lemma inaccessible_directory_rejected_first_witness :
  (forall srv, ~ reusable (store (initial demo_env demo_dirs)) srv)
  /\ ("/missing" ∉ accessible (store (initial demo_env demo_dirs)))
  /\ step (initial demo_env demo_dirs) (CallStart 0 "/missing")
     = with_store (extend [FxAccess "/missing" false;
                           FxRejected 0 (DirectoryNotAccessible "/missing")])
                  (initial demo_env demo_dirs).
Proof.
  assert (Hout : "/missing" ∉ accessible (store (initial demo_env demo_dirs))).
  { apply (bool_decide_eq_false_1
             ("/missing" ∈ accessible (store (initial demo_env demo_dirs)))).
    vm_compute. reflexivity. }
  split; [exact (initial_not_reusable demo_env demo_dirs)|].
  split; [exact Hout|].
  exact (proj2 (inaccessible_directory_rejected_first (initial demo_env demo_dirs) 0
                  "/missing" (initial_not_reusable demo_env demo_dirs) Hout)).
Defined.

Lemma reuse_precedes_directory_check_witness :
  reusable (store demo_live) demo_server
  /\ ("/missing" ∉ accessible (store demo_live))
  /\ step demo_live (CallStart 1 "/missing")
     = with_store (extend [reuse_log "/missing" demo_server; FxResolved 1 demo_server])
                  demo_live.
Proof.
  split; [exact demo_live_reusable|]. split; [exact demo_missing_not_accessible|].
  exact (proj1 (reuse_precedes_directory_check demo_live 1 "/missing") demo_server
           demo_live_reusable demo_missing_not_accessible).
Defined.

Lemma demo_proj_accessible (e : gmap string string) :
  "/tmp/proj" ∈ accessible (mkStore None e demo_dirs [] []).
Proof.
  apply (bool_decide_eq_true_1 ("/tmp/proj" ∈ demo_dirs)). vm_compute. reflexivity.
Defined.

Lemma env_port_used_iff_valid_witness :
  (forall srv, ~ reusable demo_forced_port srv)
  /\ "/tmp/proj" ∈ accessible demo_forced_port
  /\ env demo_forced_port !! "OPENCODE_PORT" = Some "8080"
  /\ exists k ch,
       run (startServer "/tmp/proj") demo_forced_port
       = (spawned "/tmp/proj" (Some 8080) (record (FxAccess "/tmp/proj" true) demo_forced_port),
          Suspended (Fetch "http://127.0.0.1:8080/session" 2000) k)
       /\ spawnargs ch = ["serve"; "--port"; "8080"].
Proof.
  assert (Hno : forall srv, ~ reusable demo_forced_port srv).
  { intros srv [Hsrv _]. discriminate. }
  assert (Henv : env demo_forced_port !! "OPENCODE_PORT" = Some "8080").
  { vm_compute. reflexivity. }
  split; [exact Hno|]. split; [exact (demo_proj_accessible _)|]. split; [exact Henv|].
  destruct (proj1 (env_port_used_iff_valid demo_forced_port "/tmp/proj" Hno
                     (demo_proj_accessible _)) "8080" Henv eq_refl eq_refl)
    as (k & ch & Hrun & _ & Hargs).
  exists k, ch. split; [exact Hrun|exact Hargs].
Defined.

Lemma fresh_spawn_invocation_witness :
  (forall srv, ~ reusable demo_forced_port srv)
  /\ "/tmp/proj" ∈ accessible demo_forced_port
  /\ exists k ch,
       run (startServer "/tmp/proj") demo_forced_port
       = (spawned "/tmp/proj" (Some 8080) (record (FxAccess "/tmp/proj" true) demo_forced_port),
          Suspended (Fetch "http://127.0.0.1:8080/session" 2000) k)
       /\ serve_invocation (env demo_forced_port) "/tmp/proj" (Some 8080) ch.
Proof.
  assert (Hno : forall srv, ~ reusable demo_forced_port srv).
  { intros srv [Hsrv _]. discriminate. }
  split; [exact Hno|]. split; [exact (demo_proj_accessible _)|].
  assert (Hres : resolvePort (env demo_forced_port) = Ret (Some 8080)).
  { vm_compute. reflexivity. }
  destruct (proj1 (fresh_spawn_invocation demo_forced_port "/tmp/proj" Hno
                     (demo_proj_accessible _)) (Some 8080) Hres)
    as (k & ch & Hrun & _ & Hinv).
  exists k, ch. split; [exact Hrun|exact Hinv].
Defined.

Lemma waitForServer_bounded_probing_witness :
  Forall failing [FetchRejected; Response 503]
  /\ exec (waitForServer (Some 4096) 30)
          [AFetch FetchRejected; ATimer; AFetch (Response 503); ATimer;
           AFetch (Response 404)]
          (store (initial demo_env demo_dirs))
     = (extend (failed_attempt (Some 4096) FetchRejected
                ++ failed_attempt (Some 4096) (Response 503)
                ++ [FxAwait (Fetch "http://127.0.0.1:4096/session" 2000);
                    FxAnswer (Fetch "http://127.0.0.1:4096/session" 2000)
                             (AFetch (Response 404))])
               (store (initial demo_env demo_dirs)),
        Settled (inr true)).
Proof.
  assert (Hfails : Forall failing [FetchRejected; Response 503]).
  { repeat constructor. simpl. lia. }
  split; [exact Hfails|].
  apply (proj1 (proj2 (@waitForServer_bounded_probing Decimal.runtime (Some 4096) 30
                         (store (initial demo_env demo_dirs))))
           [FetchRejected; Response 503] 404 [] Hfails); simpl; lia.
Defined.

(** C4, as stated, fails: a restart that throws does not always leave
    the slot empty.  The child of [demo_live] crashes and the slot is
    cleared; while the restart waits for its port, a caller starts the
    server, which is published; then the restart's request for a port
    fails: the error is logged, and the slot still holds the instance
    of the other start. *)
Lemma failed_restart_beside_published_instance :
  server (store (step demo_live (ChildExit 0%nat (Some 1)))) = None
  /\ last (trace (store (run_events demo_live demo_restart_fails)))
     = Some (restart_failed_log (SocketError "EMFILE"))
  /\ server (store (run_events demo_live demo_restart_fails))
     = Some (demo_instance 1%nat 4097 "http://127.0.0.1:4097")
  /\ server (store (run_events demo_live demo_restart_fails)) <> None.
Proof.
  split; [vm_compute; reflexivity|].
  split; [vm_compute; reflexivity|].
  split; [vm_compute; reflexivity|].
  vm_compute. discriminate.
Qed.



(** ** Further properties of the supervisor *)

Section SupervisorMore.

Context `{RT : JSRuntime}.

Local Open Scope list_scope.





Lemma launches_le_refl (ok : Launches) : launches_le ok ok.
Proof. intros child p dir H. exact H. Qed.

Lemma launches_le_trans (a b c : Launches) :
  launches_le a b -> launches_le b c -> launches_le a c.
Proof. intros Hab Hbc child p dir H. apply Hbc, Hab, H. Qed.

Lemma describes_child_mono (ok ok' : Launches) (srv : OpenCodeServer) :
  launches_le ok ok' -> describes_child ok srv -> describes_child ok' srv.
Proof. intros Hle (H1 & H2 & H3). split; [apply Hle, H1|split; assumption]. Qed.

Lemma tidy_bind {A B : Type} (Q : Launches -> B -> Prop) (f : A -> Async B) (m : Async A) :
  forall ok, tidy (fun ok' a => tidy Q ok' (f a)) ok m -> tidy Q ok (bind m f).
Proof.
  induction m as [a|e|op k IH|op k IH]; intros ok; simpl.
  - trivial.
  - trivial.
  - intros [Hpre Hk]. split; [exact Hpre|]. intros ok' x Hle Hpost.
    apply IH, Hk; assumption.
  - intros Hk ok' x Hle. apply IH, Hk. exact Hle.
Qed.

Lemma tidy_resolvePort (Q : Launches -> number -> Prop) (ok : Launches)
  (e : gmap string string) :
  (forall ok' n, launches_le ok ok' -> Q ok' n) -> tidy Q ok (resolvePort e).
Proof.
  intros HQ. destruct (resolvePort_cases e) as [[n ->]| ->].
  - apply HQ, launches_le_refl.
  - unfold getOpenPort. simpl.
    intros ok1 [[| |n]|err] Hle1; simpl; auto.
    intros ok2 [] Hle2. apply HQ. exact (launches_le_trans _ _ _ Hle1 Hle2).
Qed.

Lemma tidy_spawnServer (Q : Launches -> pid -> Prop) (ok : Launches)
  (dir : string) (p : number) :
  (forall ok' child, launches_le ok ok' -> ok' child p dir -> Q ok' child) ->
  tidy Q ok (spawnServer dir p).
Proof.
  intros HQ. unfold spawnServer. simpl.
  split; [exact I|]. intros ok1 e Hle1 _.
  split; [exact I|]. intros ok2 [] Hle2 _.
  split; [exact I|]. intros ok3 child Hle3 Hpost.
  split; [exact I|]. intros ok4 [] Hle4 _.
  apply HQ.
  - exact (launches_le_trans _ _ _ Hle1
             (launches_le_trans _ _ _ Hle2 (launches_le_trans _ _ _ Hle3 Hle4))).
  - apply Hle4, Hpost. reflexivity.
Qed.

Lemma tidy_waitForServer (Q : Launches -> bool -> Prop) (p : number) (maxAttempts : nat) :
  forall (r : nat) (ok : Launches),
    (forall ok' b, launches_le ok ok' -> Q ok' b) ->
    tidy Q ok (waitForServer_from p maxAttempts r).
Proof.
  induction r as [|r IH]; intros ok HQ; simpl; [trivial|].
  intros ok1 o Hle1.
  destruct (match o with Response status => status <? 500 | FetchRejected => false end);
    simpl.
  - apply HQ, Hle1.
  - intros ok2 [] Hle2. apply IH. intros ok3 b Hle3. apply HQ.
    exact (launches_le_trans _ _ _ Hle1 (launches_le_trans _ _ _ Hle2 Hle3)).
Qed.

Lemma tidy_publish (ok : Launches) (dir : string) (p : number) (child : pid) :
  ok child p dir -> tidy describes_child ok (publish dir p child).
Proof.
  intros Hok. unfold publish. simpl.
  split; [exact I|]. intros ok1 [] Hle1 _.
  split.
  { split; [apply Hle1, Hok|split; reflexivity]. }
  intros ok2 [] Hle2 _.
  split; [apply Hle2, Hle1, Hok|split; reflexivity].
Qed.

Lemma tidy_startFresh (ok : Launches) (dir : string) :
  tidy describes_child ok (startFresh dir).
Proof.
  change (tidy describes_child ok
            (Do (AccessSync dir) (fun okDir =>
               if negb okDir then Throw (DirectoryNotAccessible dir)
               else Do ProcessEnv (fun e =>
                      let! p := resolvePort e in
                      let! serverProcess := spawnServer dir p in
                      do! waitForServer p defaultMaxAttempts in
                      publish dir p serverProcess)))).
  split; [exact I|]. intros ok1 okDir _ _.
  destruct okDir; cbn [negb]; [|exact I].
  split; [exact I|]. intros ok2 e _ _.
  apply tidy_bind, tidy_resolvePort. intros ok3 n _.
  apply tidy_bind, tidy_spawnServer. intros ok4 child _ Hchild.
  apply tidy_bind. unfold waitForServer. apply tidy_waitForServer.
  intros ok5 b Hle5. apply tidy_publish. apply Hle5, Hchild.
Qed.

Lemma tidy_startServer (ok : Launches) (dir : string) :
  tidy describes_child ok (startServer dir).
Proof.
  unfold startServer. simpl. split; [exact I|].
  intros ok1 current _ Hcur. destruct current as [srv|]; [|apply tidy_startFresh].
  simpl. split; [exact I|]. intros ok2 wasKilled Hle2 _.
  destruct wasKilled; simpl; [apply tidy_startFresh|].
  split; [exact I|]. intros ok3 [] Hle3 _.
  apply (describes_child_mono ok1); [|apply Hcur; reflexivity].
  exact (launches_le_trans _ _ _ Hle2 Hle3).
Qed.

(** *** Soundness *)

Lemma launched_same_children (s s' : Store) :
  children s' = children s -> launches_le (launched s) (launched s').
Proof. intros Heq child p dir (ch & Hch & H). exists ch. rewrite Heq. auto. Qed.

Lemma launched_app (s s' : Store) (more : list ChildProcess) :
  children s' = children s ++ more -> launches_le (launched s) (launched s').
Proof.
  intros Heq child p dir (ch & Hch & H). exists ch. rewrite Heq.
  split; [|exact H]. apply lookup_app_l_Some. exact Hch.
Qed.

Lemma launched_update (s s' : Store) (i : nat) (f : ChildProcess -> ChildProcess) :
  (forall ch, spawnargs (f ch) = spawnargs ch /\ cwd (f ch) = cwd ch) ->
  children s' = alter f i (children s) ->
  launches_le (launched s) (launched s').
Proof.
  intros Hf Heq child p dir (ch & Hch & Hargs & Hcwd). unfold launched. rewrite Heq.
  unfold pid in *.
  destruct (decide (i = child)) as [->|Hne].
  - exists (f ch). rewrite list_lookup_alter_eq, Hch. split; [reflexivity|].
    destruct (Hf ch) as [-> ->]. auto.
  - exists ch. rewrite list_lookup_alter_ne; auto.
Qed.

Lemma insert_as_alter (l : list ChildProcess) (i : nat) (ch : ChildProcess)
  (f : ChildProcess -> ChildProcess) :
  l !! i = Some ch -> <[i := f ch]> l = alter f i l.
Proof.
  intros Hi. apply list_eq. intros j.
  destruct (decide (i = j)) as [->|Hne].
  - rewrite list_lookup_alter_eq, Hi. simpl.
    apply list_lookup_insert_eq. eapply lookup_lt_Some; eauto.
  - rewrite list_lookup_insert_ne; [|exact Hne].
    rewrite list_lookup_alter_ne; auto.
Qed.

Lemma store_tidy_le (s s' : Store) :
  store_tidy s ->
  launches_le (launched s) (launched s') ->
  server s' = server s ->
  (forall fx, In fx (trace s') -> In fx (trace s) \/ exposed fx = None) ->
  store_tidy s'.
Proof.
  intros [Hslot Htr] Hle Hsrv Hin. split.
  - intros srv Hs. rewrite Hsrv in Hs.
    exact (describes_child_mono _ _ _ Hle (Hslot srv Hs)).
  - intros fx srv Hfx Hexp. destruct (Hin fx Hfx) as [Hold|Hnone]; [|congruence].
    exact (describes_child_mono _ _ _ Hle (Htr fx srv Hold Hexp)).
Qed.

Lemma in_snoc_old (tr : list Effect) (fx fx' : Effect) :
  exposed fx = None -> In fx' (tr ++ [fx]) -> In fx' tr \/ exposed fx' = None.
Proof.
  intros Hnone Hin. apply in_app_or in Hin. destruct Hin as [Hin|[<-|[]]]; auto.
Qed.

Lemma count_kills_app (l1 l2 : list Effect) :
  count_kills (l1 ++ l2) = (count_kills l1 + count_kills l2)%nat.
Proof. unfold count_kills. rewrite List.filter_app, length_app. reflexivity. Qed.

Lemma count_kills_snoc (tr : list Effect) (fx : Effect) :
  count_kills (tr ++ [fx]) = (count_kills tr + if is_kill fx then 1 else 0)%nat.
Proof. rewrite count_kills_app. unfold count_kills at 2. simpl. destruct (is_kill fx); reflexivity. Qed.

(** An effect that exposes no instance, recorded in a store whose
    children keep their launch data. *)
Lemma record_tidy (fx : Effect) (s s0 : Store) :
  store_tidy s ->
  exposed fx = None ->
  launches_le (launched s) (launched s0) ->
  server s0 = server s ->
  trace s0 = trace s ->
  store_tidy (record fx s0)
  /\ launches_le (launched s) (launched (record fx s0)).
Proof.
  intros Hs Hnone Hle Hsrv Htr. split; [|exact Hle].
  apply (store_tidy_le s); [exact Hs|exact Hle|exact Hsrv|].
  intros fx' Hin. simpl in Hin. rewrite Htr in Hin.
  exact (in_snoc_old _ _ _ Hnone Hin).
Qed.

Lemma perform_tidy (op : SyncOp) (s : Store) :
  store_tidy s ->
  (forall srv, op = WriteServer (Some srv) -> describes_child (launched s) srv) ->
  store_tidy (fst (perform op s))
  /\ launches_le (launched s) (launched (fst (perform op s)))
  /\ tidy_post (launched (fst (perform op s))) op (snd (perform op s))
  /\ ((forall p, op <> Kill p) ->
        count_kills (trace (fst (perform op s))) = count_kills (trace s))
  /\ (count_kills (trace (fst (perform op s))) <= S (count_kills (trace s)))%nat.
Proof.
  intros Hs Hpre.
  assert (Hcount : forall fx (s0 : Store), trace s0 = trace s -> is_kill fx = false ->
            ((forall p, op <> Kill p) ->
               count_kills (trace (record fx s0)) = count_kills (trace s))
            /\ (count_kills (trace (record fx s0)) <= S (count_kills (trace s)))%nat).
  { intros fx s0 Htr Hk. simpl. rewrite Htr, count_kills_snoc, Hk. split; [intros; lia|lia]. }
  assert (Hsame : ((forall p, op <> Kill p) -> count_kills (trace s) = count_kills (trace s))
                  /\ (count_kills (trace s) <= S (count_kills (trace s)))%nat).
  { split; [reflexivity|lia]. }
  destruct op as [|v|p|dir| |file args dir e|p dir|p|level msg data]; simpl.
  - split; [exact Hs|]. split; [apply launches_le_refl|]. split; [|exact Hsame].
    intros srv Hsrv. apply Hs. exact Hsrv.
  - split; [|split; [apply launches_le_refl|split; [exact I|]]].
    + destruct Hs as [Hslot Htr]. split.
      * intros srv Hsrv. simpl in Hsrv. subst v. apply Hpre. reflexivity.
      * intros fx srv Hin Hexp. simpl in Hin. apply in_app_or in Hin.
        destruct Hin as [Hin|[<-|[]]]; [exact (Htr fx srv Hin Hexp)|].
        destruct v as [srv'|]; [|discriminate]. simpl in Hexp.
        inversion Hexp; subst srv'. apply Hpre. reflexivity.
    + apply (Hcount (FxAssign v) (set_server v s)); reflexivity.
  - split; [exact Hs|]. split; [apply launches_le_refl|]. split; [exact I|exact Hsame].
  - destruct (record_tidy (FxAccess dir (bool_decide (dir ∈ accessible s))) s s Hs eq_refl
                (launches_le_refl _) eq_refl eq_refl) as [H1 H2].
    split; [exact H1|]. split; [exact H2|]. split; [exact I|].
    apply (Hcount _ s); reflexivity.
  - split; [exact Hs|]. split; [apply launches_le_refl|]. split; [exact I|exact Hsame].
  - set (ch := mkChild file args dir e false false None).
    assert (Hle : launches_le (launched s)
                    (launched (set_children (children s ++ [ch]) s))).
    { apply (launched_app s _ [ch]). reflexivity. }
    destruct (record_tidy (FxSpawn (length (children s)) ch) s
                (set_children (children s ++ [ch]) s) Hs eq_refl Hle eq_refl eq_refl)
      as [H1 H2].
    split; [exact H1|]. split; [exact H2|]. split.
    + intros p Hargs. exists ch. split; [|split; [exact Hargs|reflexivity]].
      simpl. unfold pid in *. rewrite lookup_app_r by lia.
      rewrite Nat.sub_diag. reflexivity.
    + apply (Hcount _ (set_children (children s ++ [ch]) s)); reflexivity.
  - assert (Hle : launches_le (launched s)
                    (launched (set_children (alter (with_listener dir) p (children s)) s))).
    { apply (launched_update s _ p (with_listener dir)); [|reflexivity].
      intros ch. split; reflexivity. }
    destruct (record_tidy (FxOnExit p dir) s
                (set_children (alter (with_listener dir) p (children s)) s)
                Hs eq_refl Hle eq_refl eq_refl) as [H1 H2].
    split; [exact H1|]. split; [exact H2|]. split; [exact I|].
    apply (Hcount _ (set_children (alter (with_listener dir) p (children s)) s));
      reflexivity.
  - destruct (children s !! p) as [ch|] eqn:Hch; [destruct (exited ch)|]; simpl.
    + destruct (record_tidy (FxKill p false) s s Hs eq_refl
                  (launches_le_refl _) eq_refl eq_refl) as [H1 H2].
      split; [exact H1|]. split; [exact H2|]. split; [exact I|].
      split; [intros Hne; exfalso; exact (Hne p eq_refl)|].
      rewrite count_kills_snoc. simpl. lia.
    + assert (Hle : launches_le (launched s)
                      (launched (set_children (<[p := with_killed ch]> (children s)) s))).
      { apply (launched_update s _ p with_killed).
        - intros ch'. split; reflexivity.
        - simpl. apply insert_as_alter. exact Hch. }
      destruct (record_tidy (FxKill p true) s
                  (set_children (<[p := with_killed ch]> (children s)) s)
                  Hs eq_refl Hle eq_refl eq_refl) as [H1 H2].
      split; [exact H1|]. split; [exact H2|]. split; [exact I|].
      split; [intros Hne; exfalso; exact (Hne p eq_refl)|].
      rewrite count_kills_snoc. simpl. lia.
    + destruct (record_tidy (FxKill p false) s s Hs eq_refl
                  (launches_le_refl _) eq_refl eq_refl) as [H1 H2].
      split; [exact H1|]. split; [exact H2|]. split; [exact I|].
      split; [intros Hne; exfalso; exact (Hne p eq_refl)|].
      rewrite count_kills_snoc. simpl. lia.
  - destruct (record_tidy (FxLog level msg data) s s Hs eq_refl
                (launches_le_refl _) eq_refl eq_refl) as [H1 H2].
    split; [exact H1|]. split; [exact H2|]. split; [exact I|].
    apply (Hcount _ s); reflexivity.
Qed.

Lemma tidy_pre_write (ok : Launches) (op : SyncOp) :
  tidy_pre ok op ->
  (forall srv, op = WriteServer (Some srv) -> describes_child ok srv)
  /\ (forall p, op <> Kill p).
Proof.
  destruct op as [|[srv'|]| | | | | |p'|]; simpl; intros Hpre;
    (split; [intros srv Heq; try discriminate|intros p0 Heq; try discriminate]).
  - inversion Heq; subst. exact Hpre.
  - contradiction.
Qed.

Lemma run_tidy {A : Type} (Q : Launches -> A -> Prop) (m : Async A) :
  forall s : Store,
    store_tidy s ->
    tidy Q (launched s) m ->
    store_tidy (fst (run m s))
    /\ launches_le (launched s) (launched (fst (run m s)))
    /\ count_kills (trace (fst (run m s))) = count_kills (trace s)
    /\ match snd (run m s) with
       | Finished (inr a) => Q (launched (fst (run m s))) a
       | Finished (inl _) => True
       | Suspended op k =>
           forall ok' x, launches_le (launched (fst (run m s))) ok' -> tidy Q ok' (k x)
       end.
Proof.
  induction m as [a|e|op k IH|op k IH]; intros s Hs Ht; simpl.
  - split; [exact Hs|]. split; [apply launches_le_refl|]. split; [reflexivity|exact Ht].
  - split; [exact Hs|]. split; [apply launches_le_refl|]. split; [reflexivity|exact I].
  - destruct Ht as [Hpre Hk].
    destruct (tidy_pre_write _ _ Hpre) as [Hwrite Hnokill].
    destruct (perform_tidy op s Hs Hwrite) as (Hs1 & Hle1 & Hpost1 & Hkills1 & _).
    specialize (Hkills1 Hnokill).
    destruct (perform op s) as [s1 x] eqn:Hperf. simpl in Hs1, Hle1, Hpost1, Hkills1.
    destruct (IH x s1 Hs1 (Hk _ x Hle1 Hpost1)) as (Hs2 & Hle2 & Hkills2 & Hres).
    split; [exact Hs2|]. split; [exact (launches_le_trans _ _ _ Hle1 Hle2)|].
    split; [congruence|exact Hres].
  - split; [exact Hs|]. split; [apply launches_le_refl|]. split; [reflexivity|exact Ht].
Qed.

Lemma record_exposing (fx : Effect) (s : Store) :
  store_tidy s ->
  (forall srv, exposed fx = Some srv -> describes_child (launched s) srv) ->
  store_tidy (record fx s).
Proof.
  intros [Hslot Htr] Hfx. split.
  - exact Hslot.
  - intros fx' srv Hin Hexp. simpl in Hin. apply in_app_or in Hin.
    destruct Hin as [Hin|[<-|[]]]; [exact (Htr fx' srv Hin Hexp)|exact (Hfx srv Hexp)].
Qed.

Lemma exec_sync_tidy (op : SyncOp) (s : Store) :
  store_tidy s ->
  (forall srv, op <> WriteServer (Some srv)) ->
  store_tidy (exec_sync op s)
  /\ launches_le (launched s) (launched (exec_sync op s))
  /\ ((forall p, op <> Kill p) ->
        count_kills (trace (exec_sync op s)) = count_kills (trace s))
  /\ (count_kills (trace (exec_sync op s)) <= S (count_kills (trace s)))%nat.
Proof.
  intros Hs Hop.
  destruct (perform_tidy op s Hs) as (H1 & H2 & _ & H3 & H4).
  { intros srv Heq. exfalso. exact (Hop srv Heq). }
  unfold exec_sync. auto.
Qed.

Lemma world_tidy_store (f : Store -> Store) (w : World) :
  world_tidy w ->
  store_tidy (f (store w)) ->
  launches_le (launched (store w)) (launched (f (store w))) ->
  world_tidy (with_store f w).
Proof.
  intros [Hs Htasks] Hs' Hle. split; [exact Hs'|].
  simpl. intros t task Ht ok' x Hle'. apply (Htasks t task Ht).
  exact (launches_le_trans _ _ _ Hle Hle').
Qed.

Lemma launch_tidy (o : Owner) (m : Async OpenCodeServer) (w : World) :
  world_tidy w ->
  tidy describes_child (launched (store w)) m ->
  world_tidy (launch o m w)
  /\ count_kills (trace (store (launch o m w))) = count_kills (trace (store w)).
Proof.
  intros [Hs Htasks] Ht. unfold launch.
  destruct (run_tidy describes_child m (store w) Hs Ht) as (Hs1 & Hle1 & Hk1 & Hres).
  destruct (run m (store w)) as [s1 r]. simpl in Hs1, Hle1, Hk1, Hres.
  destruct r as [r|op k].
  - assert (Hset : store_tidy (settle o r s1)
                   /\ launched (settle o r s1) = launched s1
                   /\ count_kills (trace (settle o r s1)) = count_kills (trace s1)).
    { destruct o as [c|], r as [e|srv]; simpl.
      - split; [apply record_exposing; [exact Hs1|intros srv Hsrv; discriminate]|].
        split; [reflexivity|]. rewrite count_kills_snoc. simpl. lia.
      - split; [|split; [reflexivity|rewrite count_kills_snoc; simpl; lia]].
        apply record_exposing; [exact Hs1|]. intros srv' Hsrv. simpl in Hsrv.
        inversion Hsrv; subst srv'. exact Hres.
      - split; [apply record_exposing; [exact Hs1|intros srv Hsrv; discriminate]|].
        split; [reflexivity|]. rewrite count_kills_snoc. simpl. lia.
      - split; [exact Hs1|]. split; reflexivity. }
    destruct Hset as (Hs2 & Hl2 & Hk2).
    split; [|simpl; congruence].
    split; [exact Hs2|]. simpl. intros t task Htask ok' x Hle'.
    apply (Htasks t task Htask). rewrite Hl2 in Hle'.
    exact (launches_le_trans _ _ _ Hle1 Hle').
  - split; [|simpl; rewrite count_kills_snoc; simpl; lia].
    split.
    + apply record_exposing; [exact Hs1|]. intros srv Hsrv. discriminate.
    + simpl. intros t task Htask ok' x Hle'.
      destruct (decide (nextTask w = t)) as [<-|Hne].
      * rewrite lookup_insert_eq in Htask. inversion Htask; subst task. simpl.
        apply Hres. exact Hle'.
      * rewrite lookup_insert_ne in Htask by exact Hne.
        apply (Htasks t task Htask). exact (launches_le_trans _ _ _ Hle1 Hle').
Qed.

Lemma stop_tidy (w : World) :
  world_tidy w ->
  world_tidy (step w CallStop)
  /\ (count_kills (trace (store (step w CallStop)))
      <= S (count_kills (trace (store w))))%nat.
Proof.
  intros Hw. destruct (server (store w)) as [srv|] eqn:Hsrv.
  - assert (Hstep : step w CallStop
      = with_store (fun s =>
          exec_sync (WriteServer None)
            (exec_sync (Log "info" "Server stopped" [("directory", LStr (directory srv))])
               (exec_sync (Kill (process srv)) s))) w).
    { cbn [step]. unfold with_store. f_equal. unfold stopServer, exec_sync. simpl.
      rewrite Hsrv. simpl.
      destruct (children (store w) !! process srv) as [ch|];
        [destruct (exited ch)|]; reflexivity. }
    rewrite Hstep.
    destruct (exec_sync_tidy (Kill (process srv)) (store w) (proj1 Hw))
      as (H1 & L1 & _ & K1); [intros ? ?; discriminate|].
    destruct (exec_sync_tidy (Log "info" "Server stopped" [("directory", LStr (directory srv))])
                _ H1) as (H2 & L2 & K2 & _); [intros ? ?; discriminate|].
    destruct (exec_sync_tidy (WriteServer None) _ H2) as (H3 & L3 & K3 & _);
      [intros ? ?; discriminate|].
    split.
    + apply world_tidy_store; [exact Hw|exact H3|].
      exact (launches_le_trans _ _ _ L1 (launches_le_trans _ _ _ L2 L3)).
    + unfold with_store. cbn [store].
      rewrite K3, K2 by (intros ? ?; discriminate). exact K1.
  - rewrite (stop_without_instance w Hsrv). split; [exact Hw|lia].
Qed.

Lemma onExit_tidy (dir : string) (code : option Z) (w : World) :
  world_tidy w ->
  world_tidy (onExit dir code w)
  /\ count_kills (trace (store (onExit dir code w))) = count_kills (trace (store w)).
Proof.
  intros Hw. unfold onExit.
  assert (Hstep : forall (op : SyncOp) (w0 : World),
            world_tidy w0 ->
            (forall srv, op <> WriteServer (Some srv)) -> (forall p, op <> Kill p) ->
            world_tidy (with_store (exec_sync op) w0)
            /\ count_kills (trace (store (with_store (exec_sync op) w0)))
               = count_kills (trace (store w0))).
  { intros op w0 Hw0 Hop Hnk.
    destruct (exec_sync_tidy op (store w0) (proj1 Hw0) Hop) as (H1 & L1 & K1 & _).
    split; [apply world_tidy_store; assumption|exact (K1 Hnk)]. }
  destruct (Hstep (Log "info" "Server exited" [("directory", LStr dir); ("code", LCode code)])
              w Hw) as [H1 K1]; [intros ? ?; discriminate|intros ? ?; discriminate|].
  destruct (Hstep (WriteServer None) _ H1) as [H2 K2];
    [intros ? ?; discriminate|intros ? ?; discriminate|].
  destruct (code_nonzero code).
  - destruct (Hstep (Log "info" "Restarting server" [("directory", LStr dir)]) _ H2)
      as [H3 K3]; [intros ? ?; discriminate|intros ? ?; discriminate|].
    destruct (launch_tidy Restart (startServer dir) _ H3 (tidy_startServer _ dir))
      as [H4 K4].
    split; [exact H4|]. rewrite K4, K3, K2, K1. reflexivity.
  - split; [exact H2|]. rewrite K2, K1. reflexivity.
Qed.

Lemma step_tidy (w : World) (ev : Event) :
  world_tidy w ->
  world_tidy (step w ev)
  /\ (count_kills (trace (store (step w ev)))
      <= count_kills (trace (store w)) + if may_kill ev then 1 else 0)%nat.
Proof.
  intros Hw. destruct ev as [c dir| |c|t a|p code|p].
  - destruct (launch_tidy (Caller c) (startServer dir) w Hw (tidy_startServer _ dir))
      as [H K].
    split; [exact H|]. cbn [step may_kill]. rewrite K. lia.
  - destruct (stop_tidy w Hw) as [H K]. split; [exact H|]. cbn [may_kill]. lia.
  - cbn [step may_kill]. split.
    + apply world_tidy_store; [exact Hw| |simpl; apply launches_le_refl].
      simpl. apply record_exposing; [exact (proj1 Hw)|].
      intros srv Hsrv. simpl in Hsrv.
      destruct (server (store w)) as [srv'|] eqn:Hslot; [|discriminate].
      inversion Hsrv; subst srv'. apply (proj1 (proj1 Hw)). exact Hslot.
    + simpl. rewrite count_kills_snoc. simpl. lia.
  - cbn [step may_kill].
    destruct (tasks w !! t) as [task|] eqn:Ht; [|split; [exact Hw|lia]].
    destruct (decode (pending task) a) as [x|] eqn:Hdec; [|split; [exact Hw|lia]].
    destruct Hw as [Hs Htasks].
    assert (Hw1 : world_tidy
              (mkWorld (record (FxAnswer (pending task) a) (store w))
                       (delete t (tasks w)) (nextTask w))).
    { split.
      - apply record_exposing; [exact Hs|]. intros srv Hsrv. discriminate.
      - simpl. intros t' task' Ht'. apply lookup_delete_Some in Ht'.
        destruct Ht' as [_ Ht']. exact (Htasks t' task' Ht'). }
    destruct (launch_tidy (owner task) (resume task x) _ Hw1) as [H K].
    { simpl. apply (Htasks t task Ht). apply launches_le_refl. }
    split; [exact H|]. rewrite K. simpl. rewrite count_kills_snoc. simpl. lia.
  - cbn [step may_kill].
    destruct (children (store w) !! p) as [ch|] eqn:Hch; [|split; [exact Hw|lia]].
    destruct (exited ch); [split; [exact Hw|lia]|].
    set (w' := with_store
                 (fun s => record (FxExited p code)
                             (set_children (<[p := with_exited ch]> (children s)) s)) w).
    assert (Hle : launches_le (launched (store w)) (launched (store w'))).
    { apply (launched_update (store w) _ p with_exited).
      - intros ch'. split; reflexivity.
      - simpl. apply insert_as_alter. exact Hch. }
    assert (Hw' : world_tidy w').
    { apply world_tidy_store; [exact Hw| |exact Hle].
      apply (store_tidy_le (store w)); [exact (proj1 Hw)|exact Hle|reflexivity|].
      intros fx Hin. simpl in Hin. apply in_app_or in Hin.
      destruct Hin as [Hin|[<-|[]]]; auto. }
    assert (Hk' : count_kills (trace (store w')) = count_kills (trace (store w))).
    { simpl. rewrite count_kills_snoc. simpl. lia. }
    destruct (exitListener ch) as [dir|].
    + destruct (onExit_tidy dir code w' Hw') as [H K]. split; [exact H|].
      rewrite K, Hk'. lia.
    + split; [exact Hw'|]. rewrite Hk'. lia.
  - cbn [step may_kill].
    destruct (exec_sync_tidy (Kill p) (store w) (proj1 Hw)) as (H1 & L1 & _ & K1);
      [intros ? ?; discriminate|].
    split; [apply world_tidy_store; assumption|]. simpl. lia.
Qed.

Lemma initial_tidy (e : gmap string string) (dirs : gset string) :
  world_tidy (initial e dirs).
Proof.
  split; [split|].
  - intros srv Hsrv. discriminate.
  - intros fx srv [].
  - intros t task Ht. simpl in Ht. rewrite lookup_empty in Ht. discriminate.
Qed.

Lemma run_events_tidy (evs : list Event) :
  forall w, world_tidy w ->
    world_tidy (run_events w evs)
    /\ (count_kills (trace (store (run_events w evs)))
        <= count_kills (trace (store w)) + length (List.filter may_kill evs))%nat.
Proof.
  induction evs as [|ev evs IH]; intros w Hw; simpl; [split; [exact Hw|lia]|].
  destruct (step_tidy w ev Hw) as [Hw1 K1].
  destruct (IH (step w ev) Hw1) as [Hw2 K2].
  split; [exact Hw2|].
  destruct (may_kill ev); simpl; lia.
Qed.

(** X1. In every run, the instance in the slot, every instance returned
    to a caller of [startServer] or [getServer], and every instance ever
    assigned, describes a child that was really spawned: the child was
    started as [serve --port p] for the instance's port [p], in the
    instance's directory, and both clients are bound to
    [http://127.0.0.1:p]. *)
Theorem instance_describes_its_child
  (e : gmap string string) (dirs : gset string) (evs : list Event) :
  (forall srv, server (store (run_events (initial e dirs) evs)) = Some srv ->
     describes_child (launched (store (run_events (initial e dirs) evs))) srv)
  /\ (forall fx srv,
        In fx (trace (store (run_events (initial e dirs) evs))) ->
        exposed fx = Some srv ->
        describes_child (launched (store (run_events (initial e dirs) evs))) srv).
Proof.
  destruct (run_events_tidy evs (initial e dirs) (initial_tidy e dirs)) as [[Hs _] _].
  exact Hs.
Qed.

(** X2. Only [stopServer()] and a [kill()] by a holder of a handle send
    a signal: in every run the kills on the trace are at most as many
    as these calls.  [startServer] itself never kills, whether it is
    reused, fails, times out or restarts; a child whose start failed is
    left to run. *)
Theorem only_stop_kills
  (e : gmap string string) (dirs : gset string) (evs : list Event) :
  (count_kills (trace (store (run_events (initial e dirs) evs)))
   <= length (List.filter may_kill evs))%nat.
Proof.
  destruct (run_events_tidy evs (initial e dirs) (initial_tidy e dirs)) as [_ K].
  simpl in K. exact K.
Qed.



Lemma count_spawns_snoc (tr : list Effect) (fx : Effect) :
  count_spawns (tr ++ [fx]) = (count_spawns tr + if is_spawn fx then 1 else 0)%nat.
Proof.
  rewrite count_spawns_app. unfold count_spawns at 2. simpl.
  destruct (is_spawn fx); reflexivity.
Qed.


End SupervisorMore.




(** ** Properties of the formatting functions *)

Section FormatEscaping.

Import JS Format FormatSpec.

Local Open Scope list_scope.

Variable toLowerCase : str -> str.

Lemma bareFree_escapeMarkdown (t : str) :
  forall b, bareFree b (escapeMarkdown t) = true.
Proof.
  induction t as [|c t IH]; intros b; [reflexivity|].
  unfold escapeMarkdown. cbn [flat_map]. fold (escapeMarkdown t).
  destruct (special c) eqn:Hc; cbn [app bareFree].
  - rewrite Hc. cbn. rewrite (IH (N.eqb c backslash)). reflexivity.
  - rewrite Hc. cbn. apply IH.
Qed.

Lemma escapeMarkdown_length (t : str) :
  length (escapeMarkdown t) = (length t + length (List.filter special t))%nat.
Proof.
  induction t as [|c t IH]; [reflexivity|].
  unfold escapeMarkdown. cbn [flat_map List.filter]. fold (escapeMarkdown t).
  rewrite length_app, IH. destruct (special c); simpl; lia.
Qed.

(** X5. [escapeMarkdown] leaves no character of [* _ ` [ ]] bare: in its
    result each of them directly follows a backslash.  It adds one code
    unit per such character and nothing else, so a text without them
    is returned unchanged. *)
Theorem escapeMarkdown_escapes_every_special (t : str) :
  bareFree false (escapeMarkdown t) = true
  /\ length (escapeMarkdown t) = (length t + length (List.filter special t))%nat
  /\ (forallb (fun c => negb (special c)) t = true -> escapeMarkdown t = t).
Proof.
  split; [apply bareFree_escapeMarkdown|]. split; [apply escapeMarkdown_length|].
  induction t as [|c t IH]; [reflexivity|].
  cbn [forallb]. intros H. apply andb_true_iff in H. destruct H as [Hc Ht].
  unfold escapeMarkdown. cbn [flat_map]. fold (escapeMarkdown t).
  apply negb_true_iff in Hc. rewrite Hc, (IH Ht). reflexivity.
Qed.

Lemma escapeMarkdown_head_not_special (t : str) (d : N) (rest : str) :
  escapeMarkdown t = d :: rest -> special d = true -> False.
Proof.
  destruct t as [|c t]; [discriminate|].
  unfold escapeMarkdown. cbn [flat_map].
  destruct (special c) eqn:Hc; cbn [app]; intros Heq Hd; inversion Heq; subst.
  - discriminate.
  - congruence.
Qed.

(** X6. [escapeMarkdown] loses nothing: dropping the backslashes it put
    before the characters of the class gives the text back, so two
    different texts never escape to the same string. *)
Theorem escapeMarkdown_lossless :
  (forall t, unescapeMarkdown (escapeMarkdown t) = t)
  /\ (forall a b, escapeMarkdown a = escapeMarkdown b -> a = b).
Proof.
  assert (Hround : forall t, unescapeMarkdown (escapeMarkdown t) = t).
  { induction t as [|c t IH]; [reflexivity|].
    unfold escapeMarkdown. cbn [flat_map]. fold (escapeMarkdown t).
    destruct (special c) eqn:Hc; cbn [app unescapeMarkdown].
    - rewrite N.eqb_refl, Hc, IH. reflexivity.
    - destruct (N.eqb c backslash) eqn:Hb; [|rewrite IH; reflexivity].
      destruct (escapeMarkdown t) as [|d rest] eqn:Het.
      + destruct t as [|c' t']; [reflexivity|].
        exfalso. unfold escapeMarkdown in Het. cbn [flat_map] in Het.
        destruct (special c'); discriminate.
      + destruct (special d) eqn:Hd.
        * exfalso. exact (escapeMarkdown_head_not_special t d rest Het Hd).
        * rewrite <- Het at 1. rewrite <- IH at 2. rewrite Het. reflexivity. }
  split; [exact Hround|].
  intros a b Heq. rewrite <- (Hround a), <- (Hround b), Heq. reflexivity.
Qed.

End FormatEscaping.

Section FormatSummaries.

Import JS Format FormatSpec.

Local Open Scope list_scope.

Variable toLowerCase : str -> str.

Lemma split_nonempty (sep : N) (s : str) : split sep s <> [].
Proof.
  induction s as [|c s IH]; simpl; [discriminate|].
  destruct (N.eqb c sep); [discriminate|].
  destruct (split sep s); [congruence|discriminate].
Qed.

Lemma split_without (sep : N) (s : str) :
  includes sep s = false -> split sep s = [s].
Proof.
  induction s as [|c s IH]; simpl; [reflexivity|].
  intros H. apply orb_false_iff in H. destruct H as [Hc Hs].
  rewrite N.eqb_sym, Hc, (IH Hs). reflexivity.
Qed.

Lemma split_app_sep (sep : N) (a b : str) :
  split sep (a ++ sep :: b) = split sep a ++ split sep b.
Proof.
  induction a as [|c a IH]; simpl.
  - rewrite N.eqb_refl. reflexivity.
  - destruct (N.eqb c sep); [rewrite IH; reflexivity|].
    rewrite IH. pose proof (split_nonempty sep a) as Hne.
    destruct (split sep a) as [|seg segs]; [congruence|reflexivity].
Qed.

Lemma split_length (sep : N) (s : str) :
  length (split sep s) = S (length (List.filter (N.eqb sep) s)).
Proof.
  induction s as [|c s IH]; simpl; [reflexivity|].
  rewrite (N.eqb_sym sep c).
  destruct (N.eqb c sep); simpl; [rewrite IH; reflexivity|].
  pose proof (split_nonempty sep s) as Hne.
  destruct (split sep s) as [|seg segs]; [congruence|exact IH].
Qed.

Lemma lineCount_newlines (s : str) : lineCount s = S (newlines s).
Proof. apply split_length. Qed.

(** The name is what follows the last slash. *)
Lemma baseName_after_slash (dir name : str) :
  includes 47%N name = false ->
  baseName (dir ++ 47%N :: name) = name.
Proof.
  intros Hname. unfold baseName.
  rewrite split_app_sep, (split_without _ _ Hname), last_snoc. reflexivity.
Qed.

Lemma baseName_plain (name : str) :
  includes 47%N name = false -> baseName name = name.
Proof.
  intros Hname. unfold baseName. rewrite (split_without _ _ Hname). reflexivity.
Qed.

Lemma truthy_false (s : str) : truthy s = false <-> s = [].
Proof. destruct s; simpl; split; congruence. Qed.

Lemma eqb_lit_refl (s : str) : eqb s s = true.
Proof. unfold eqb. apply bool_decide_eq_true_2. reflexivity. Qed.

(** X7. The summary of a [read] names the file by what follows the last
    slash of [filePath], escaped and between stars; a path that is
    missing, empty or ends in a slash gives no summary at all. *)
Theorem read_summary_names_last_segment (state : ToolState) :
  (forall dir name,
     field (input state) "filePath" = dir ++ 47%N :: name ->
     includes 47%N name = false ->
     getToolSummaryText (ToolPart (lit "read") state)
     = if truthy name then lit "*" ++ escapeMarkdown name ++ lit "*" else [])
  /\ (includes 47%N (field (input state) "filePath") = false ->
      getToolSummaryText (ToolPart (lit "read") state)
      = if truthy (field (input state) "filePath")
        then lit "*" ++ escapeMarkdown (field (input state) "filePath") ++ lit "*"
        else [])
  /\ (input state !! "filePath" = None ->
      getToolSummaryText (ToolPart (lit "read") state) = []).
Proof.
  assert (Hread : getToolSummaryText (ToolPart (lit "read") state)
                  = if truthy (baseName (field (input state) "filePath"))
                    then starred (baseName (field (input state) "filePath")) else []).
  { reflexivity. }
  rewrite Hread. split; [|split].
  - intros dir name Hpath Hname. rewrite Hpath, (baseName_after_slash _ _ Hname).
    reflexivity.
  - intros Hplain. rewrite (baseName_plain _ Hplain). reflexivity.
  - intros Hmissing. unfold field. rewrite Hmissing. reflexivity.
Qed.

(** X8. An [edit] is summarised with one more than the number of line
    feeds of [newString] and of [oldString]: a text that is missing or
    empty counts as one line, so an edit without any text reads
    [(+1-1)]. *)
Theorem edit_summary_counts_line_feeds (state : ToolState) :
  getToolSummaryText (ToolPart (lit "edit") state)
  = (if truthy (baseName (field (input state) "filePath"))
     then lit "*" ++ escapeMarkdown (baseName (field (input state) "filePath")) ++ lit "* "
     else [])
    ++ lit "(+" ++ ofNat (S (newlines (field (input state) "newString")))
    ++ lit "-" ++ ofNat (S (newlines (field (input state) "oldString"))) ++ lit ")"
  /\ (input state = ∅ ->
      getToolSummaryText (ToolPart (lit "edit") state) = lit "(+1-1)").
Proof.
  assert (Hedit : getToolSummaryText (ToolPart (lit "edit") state)
            = let counts := lit "(+" ++ ofNat (lineCount (field (input state) "newString"))
                            ++ lit "-" ++ ofNat (lineCount (field (input state) "oldString"))
                            ++ lit ")" in
              if truthy (baseName (field (input state) "filePath"))
              then starred (baseName (field (input state) "filePath")) ++ lit " " ++ counts
              else counts).
  { reflexivity. }
  split.
  - rewrite Hedit. cbv zeta. rewrite !lineCount_newlines.
    destruct (truthy (baseName (field (input state) "filePath"))); [|reflexivity].
    unfold starred. rewrite <- !app_assoc. reflexivity.
  - intros Hempty. rewrite Hedit. unfold field. rewrite Hempty, !lookup_empty.
    reflexivity.
Qed.

(** X9. A [write] is summarised with one more than the number of line
    feeds of [content], and says [line] exactly when there is no line
    feed (a missing or empty content is [1 line]), [lines] otherwise. *)
Theorem write_summary_counts_lines (state : ToolState) :
  getToolSummaryText (ToolPart (lit "write") state)
  = (if truthy (baseName (field (input state) "filePath"))
     then lit "*" ++ escapeMarkdown (baseName (field (input state) "filePath")) ++ lit "* "
     else [])
    ++ lit "(" ++ ofNat (S (newlines (field (input state) "content")))
    ++ (if includes 10%N (field (input state) "content") then lit " lines" else lit " line")
    ++ lit ")".
Proof.
  assert (Hwrite : getToolSummaryText (ToolPart (lit "write") state)
            = let lines := lineCount (field (input state) "content") in
              let counts := lit "(" ++ ofNat lines ++ lit " line"
                            ++ (if Nat.eqb lines 1 then [] else lit "s") ++ lit ")" in
              if truthy (baseName (field (input state) "filePath"))
              then starred (baseName (field (input state) "filePath")) ++ lit " " ++ counts
              else counts).
  { reflexivity. }
  rewrite Hwrite. cbv zeta. rewrite !lineCount_newlines.
  assert (Hplural : forall s : str,
            (if Nat.eqb (S (newlines s)) 1 then [] else lit "s")
            = if includes 10%N s then lit "s" else []).
  { intros s. unfold newlines, includes.
    induction s as [|c s IH]; [reflexivity|].
    cbn [List.filter existsb]. destruct (N.eqb 10 c); cbn [length orb].
    - reflexivity.
    - exact IH. }
  rewrite Hplural.
  destruct (truthy (baseName (field (input state) "filePath")));
    destruct (includes 10%N (field (input state) "content"));
    unfold starred; rewrite <- ?app_assoc; reflexivity.
Qed.

Lemma stripProtocol_http (rest : str) : stripProtocol (lit "http://" ++ rest) = rest.
Proof. reflexivity. Qed.

Lemma stripProtocol_https (rest : str) : stripProtocol (lit "https://" ++ rest) = rest.
Proof. reflexivity. Qed.

(** X10. The summary of a [webfetch] shows the URL without one leading
    [http://] or [https://]: both spellings of an address give the same
    summary, a URL that is nothing but the protocol gives none, and a
    second protocol after the first is kept. *)
Theorem webfetch_summary_drops_protocol (state : ToolState) (rest : str) :
  (field (input state) "url" = lit "http://" ++ rest
   \/ field (input state) "url" = lit "https://" ++ rest) ->
  getToolSummaryText (ToolPart (lit "webfetch") state)
  = if truthy rest then lit "*" ++ escapeMarkdown rest ++ lit "*" else [].
Proof.
  assert (Hfetch : getToolSummaryText (ToolPart (lit "webfetch") state)
            = if truthy (stripProtocol (field (input state) "url"))
              then starred (stripProtocol (field (input state) "url")) else []).
  { reflexivity. }
  rewrite Hfetch. intros [-> | ->].
  - rewrite stripProtocol_http. reflexivity.
  - rewrite stripProtocol_https. reflexivity.
Qed.

End FormatSummaries.

Section FormatParts.

Import JS Format FormatSpec.

Local Open Scope list_scope.

Variable toLowerCase : str -> str.

Lemma findIndex_first {A : Type} (p : A -> bool) (before : list A) (x : A) (after : list A) :
  forallb (fun y => negb (p y)) before = true ->
  p x = true ->
  findIndex p (before ++ x :: after) = Some (length before).
Proof.
  induction before as [|y before IH]; simpl; intros Hb Hx.
  - rewrite Hx. reflexivity.
  - apply andb_true_iff in Hb. destruct Hb as [Hy Hb].
    apply negb_true_iff in Hy. rewrite Hy, (IH Hb Hx). reflexivity.
Qed.

Lemma findIndex_none {A : Type} (p : A -> bool) (l : list A) :
  forallb (fun y => negb (p y)) l = true -> findIndex p l = None.
Proof.
  induction l as [|y l IH]; simpl; intros Hl; [reflexivity|].
  apply andb_true_iff in Hl. destruct Hl as [Hy Hl].
  apply negb_true_iff in Hy. rewrite Hy, (IH Hl). reflexivity.
Qed.

(** X11. A [todowrite] part is shown as its first todo in progress: the
    position of that todo in the list, counted from 1, then its content
    with the first code unit lower-cased, escaped, between stars.  With
    no todo in progress (or no list) nothing is shown. *)
Theorem todo_list_shows_first_in_progress (state : ToolState) :
  (forall before todo after,
     todos state = Some (before ++ todo :: after) ->
     forallb (fun t => negb (inProgress t)) before = true ->
     inProgress todo = true ->
     formatPart toLowerCase (ToolPart (lit "todowrite") state)
     = ofNat (S (length before)) ++ lit ". *"
       ++ escapeMarkdown (toLowerCase (firstn 1 (content todo)) ++ skipn 1 (content todo))
       ++ lit "*")
  /\ (forall l, todos state = Some l ->
                forallb (fun t => negb (inProgress t)) l = true ->
                formatPart toLowerCase (ToolPart (lit "todowrite") state) = [])
  /\ (todos state = None ->
      formatPart toLowerCase (ToolPart (lit "todowrite") state) = []).
Proof.
  assert (Hfmt : formatPart toLowerCase (ToolPart (lit "todowrite") state)
                 = formatTodoList toLowerCase (ToolPart (lit "todowrite") state)).
  { reflexivity. }
  rewrite Hfmt. unfold formatTodoList. rewrite eqb_lit_refl. cbn [negb].
  split; [|split].
  - intros before todo after Htodos Hbefore Htodo. rewrite Htodos.
    fold inProgress.
    change (fun todo0 : Todo => eqb (todoStatus todo0) (lit "in_progress")) with inProgress.
    rewrite (findIndex_first inProgress before todo after Hbefore Htodo).
    rewrite lookup_app_r by lia. rewrite Nat.sub_diag. cbn [lookup list_lookup].
    rewrite Nat.add_1_r. unfold starred. rewrite <- !app_assoc. reflexivity.
  - intros l Htodos Hl. rewrite Htodos.
    change (fun todo0 : Todo => eqb (todoStatus todo0) (lit "in_progress")) with inProgress.
    rewrite (findIndex_none inProgress l Hl). reflexivity.
  - intros Hnone. rewrite Hnone. reflexivity.
Qed.

Lemma trimStart_blank (s : str) :
  forallb isSpace s = true -> trimStart s = [].
Proof.
  induction s as [|c s IH]; simpl; [reflexivity|].
  intros H. apply andb_true_iff in H. destruct H as [Hc Hs]. rewrite Hc. exact (IH Hs).
Qed.

Lemma trimEnd_head (c : N) (s : str) :
  isSpace c = false -> trimEnd (c :: s) = c :: trimEnd s.
Proof. intros Hc. simpl. rewrite Hc. destruct (trimEnd s); reflexivity. Qed.

Lemma trim_head (c : N) (s : str) :
  isSpace c = false -> trim (c :: s) = c :: trimEnd s.
Proof. intros Hc. unfold trim. simpl. rewrite Hc. apply trimEnd_head. exact Hc. Qed.

Lemma trimStart_not_blank (s : str) :
  forallb isSpace s = false ->
  exists c rest, trimStart s = c :: rest /\ isSpace c = false.
Proof.
  induction s as [|c s IH]; simpl; [discriminate|].
  destruct (isSpace c) eqn:Hc; simpl.
  - exact IH.
  - intros _. exists c, s. split; [reflexivity|exact Hc].
Qed.

Lemma truthy_trim (s : str) : truthy (trim s) = negb (forallb isSpace s).
Proof.
  destruct (forallb isSpace s) eqn:Hs.
  - unfold trim. rewrite (trimStart_blank s Hs). reflexivity.
  - destruct (trimStart_not_blank s Hs) as (c & rest & Heq & Hc).
    unfold trim. rewrite Heq, (trimEnd_head c rest Hc). reflexivity.
Qed.

Lemma trimEnd_last (s : str) (c : N) :
  last (trimEnd s) = Some c -> isSpace c = false.
Proof.
  revert c. induction s as [|d s IH]; intros c; simpl; [discriminate|].
  destruct (trimEnd s) as [|k kept] eqn:Hk.
  - destruct (isSpace d) eqn:Hd; simpl; [discriminate|].
    intros Heq. inversion Heq; subst. exact Hd.
  - intros Heq. apply IH. exact Heq.
Qed.

Lemma trimEnd_spaces (s : str) (c : N) (spaces : str) :
  isSpace c = false ->
  forallb isSpace spaces = true ->
  trimEnd (s ++ c :: spaces) = s ++ [c].
Proof.
  intros Hc Hsp.
  assert (Htail : trimEnd spaces = []).
  { induction spaces as [|d spaces IH]; [reflexivity|]. simpl in *.
    apply andb_true_iff in Hsp. destruct Hsp as [Hd Hsp]. rewrite (IH Hsp), Hd.
    reflexivity. }
  assert (Hend : trimEnd (c :: spaces) = [c]).
  { simpl. rewrite Htail, Hc. reflexivity. }
  induction s as [|d s IH]; [exact Hend|].
  cbn [app trimEnd]. rewrite IH.
  destruct (s ++ [c]) eqn:Heq; [destruct s; discriminate|reflexivity].
Qed.

(** X12. A text part is shown exactly as it is, leading and trailing
    white space included, unless it consists of white space only (or
    has no text), in which case nothing is shown; a reasoning part with
    such a text is shown as [> thinking] whatever it says. *)
Theorem text_part_shown_verbatim (t : str) :
  formatPart toLowerCase (TextPart (Some t))
  = (if forallb isSpace t then [] else t)
  /\ formatPart toLowerCase (ReasoningPart (Some t))
     = (if forallb isSpace t then [] else lit "> thinking")
  /\ formatPart toLowerCase (TextPart None) = []
  /\ formatPart toLowerCase (ReasoningPart None) = [].
Proof.
  unfold formatPart, blank. rewrite truthy_trim, negb_involutive.
  repeat split; destruct (forallb isSpace t); reflexivity.
Qed.

End FormatParts.

Section FormatToolLines.

Import JS Format FormatSpec.

Local Open Scope list_scope.

Variable toLowerCase : str -> str.

Lemma trimEnd_keeps_prefix (a : str) (c : N) (b : str) :
  isSpace c = false ->
  trimEnd (a ++ c :: b) = a ++ c :: trimEnd b.
Proof.
  intros Hc. induction a as [|d a IH].
  - apply trimEnd_head. exact Hc.
  - cbn [app trimEnd]. rewrite IH.
    destruct (a ++ c :: trimEnd b) eqn:Heq; [destruct a; discriminate|reflexivity].
Qed.

(** What a tool part that is neither a todo list nor a question, and
    not pending, is made of. *)
Lemma formatPart_tool (tool : str) (state : ToolState) :
  eqb tool (lit "todowrite") = false ->
  eqb tool (lit "question") = false ->
  status state <> Pending ->
  exists toolTitle,
    formatPart toLowerCase (ToolPart tool state)
    = trim ((if match status state with Failed => true | _ => false end
             then lit "X" else lit ">")
            ++ lit " " ++ tool ++ lit " " ++ toolTitle ++ lit " "
            ++ getToolSummaryText (ToolPart tool state)).
Proof.
  intros Htodo Hquestion Hstatus. unfold formatPart. rewrite Htodo, Hquestion.
  destruct (status state) eqn:Hst; [congruence| | |]; eexists; reflexivity.
Qed.

(** X13. The line of a tool part (other than a todo list, a question or
    a pending call) begins with the mark, [X] for a failed call and [>]
    otherwise, a space and the name of the tool, and it never ends in
    white space. *)
Theorem tool_line_begins_with_mark_and_name
  (name : str) (c : N) (state : ToolState) :
  isSpace c = false ->
  eqb (name ++ [c]) (lit "todowrite") = false ->
  eqb (name ++ [c]) (lit "question") = false ->
  status state <> Pending ->
  exists tail,
    formatPart toLowerCase (ToolPart (name ++ [c]) state)
    = (if match status state with Failed => true | _ => false end
       then lit "X " else lit "> ") ++ (name ++ [c]) ++ tail
    /\ forall d, last (formatPart toLowerCase (ToolPart (name ++ [c]) state)) = Some d ->
                 isSpace d = false.
Proof.
  intros Hc Htodo Hquestion Hstatus.
  destruct (formatPart_tool (name ++ [c]) state Htodo Hquestion Hstatus)
    as (toolTitle & Hfmt).
  rewrite Hfmt.
  set (more := lit " " ++ toolTitle ++ lit " "
               ++ getToolSummaryText (ToolPart (name ++ [c]) state)).
  exists (trimEnd more). split.
  - rewrite <- !(app_assoc name [c]). cbn [app].
    destruct (match status state with Failed => true | _ => false end).
    + change (lit "X" ++ lit " " ++ name ++ c :: more)
        with (88%N :: ((32%N :: name) ++ c :: more)).
      rewrite trim_head by reflexivity. rewrite (trimEnd_keeps_prefix _ _ _ Hc).
      reflexivity.
    + change (lit ">" ++ lit " " ++ name ++ c :: more)
        with (62%N :: ((32%N :: name) ++ c :: more)).
      rewrite trim_head by reflexivity. rewrite (trimEnd_keeps_prefix _ _ _ Hc).
      reflexivity.
  - intros d Hd. unfold trim in Hd. exact (trimEnd_last _ _ Hd).
Qed.

(** X14. For a [bash] call that is running or completed, the title is
    the command itself when it has no line feed and at most 50 code
    units, an empty or missing command included (the line is then
    [> bash __]); only a longer or multi-line command gives way to the
    description. *)
Theorem bash_line_prefers_short_command (state : ToolState) :
  status state = Running \/ status state = Completed ->
  (includes 10%N (field (input state) "command") = false ->
   (length (field (input state) "command") <= 50)%nat ->
   formatPart toLowerCase (ToolPart (lit "bash") state)
   = lit "> bash _" ++ escapeMarkdown (field (input state) "command") ++ lit "_")
  /\ (includes 10%N (field (input state) "command") = true
      \/ (50 < length (field (input state) "command"))%nat ->
      truthy (field (input state) "description") = true ->
      formatPart toLowerCase (ToolPart (lit "bash") state)
      = lit "> bash _" ++ escapeMarkdown (field (input state) "description") ++ lit "_").
Proof.
  intros Hstatus.
  assert (Hfmt : formatPart toLowerCase (ToolPart (lit "bash") state)
            = trim (lit ">" ++ lit " " ++ lit "bash" ++ lit " "
                    ++ (if negb (includes 10%N (field (input state) "command"))
                           && (length (field (input state) "command") <=? 50)%nat
                        then underlined (field (input state) "command")
                        else if truthy (field (input state) "description")
                             then underlined (field (input state) "description")
                             else if truthy (match title state with Some t => t | None => [] end)
                                  then underlined (match title state with
                                                   | Some t => t | None => [] end)
                                  else [])
                    ++ lit " " ++ [])).
  { unfold formatPart. destruct Hstatus as [-> | ->]; reflexivity. }
  assert (Htrim : forall s : str,
            trim (lit ">" ++ lit " " ++ lit "bash" ++ lit " " ++ underlined s ++ lit " " ++ [])
            = lit "> bash _" ++ escapeMarkdown s ++ lit "_").
  { intros s. unfold underlined. rewrite <- !app_assoc.
    change (lit ">" ++ lit " " ++ lit "bash" ++ lit " "
            ++ lit "_" ++ escapeMarkdown s ++ lit "_" ++ lit " " ++ [])
      with (62%N :: (lit " bash _" ++ escapeMarkdown s ++ 95%N :: [32%N])).
    rewrite trim_head by reflexivity.
    rewrite app_assoc, (trimEnd_spaces _ 95%N [32%N]) by reflexivity.
    rewrite <- app_assoc. reflexivity. }
  rewrite Hfmt. split.
  - intros Hline Hlen. rewrite Hline. apply Nat.leb_le in Hlen. rewrite Hlen.
    cbn [negb andb]. apply Htrim.
  - intros Hlong Hdesc.
    assert (Hcond : negb (includes 10%N (field (input state) "command"))
                    && (length (field (input state) "command") <=? 50)%nat = false).
    { destruct Hlong as [-> | Hlen]; [reflexivity|].
      apply andb_false_iff. right. apply Nat.leb_gt. exact Hlen. }
    rewrite Hcond, Hdesc. apply Htrim.
Qed.

End FormatToolLines.

(** ** Properties of the configuration loader *)

Section ConfigFacts.

Import Config.

Context `{RT : JSRuntime}.

Variable join : list string -> string.
Variable files : string -> FileOutcome.

Lemma own_assign (config : BotConfig) (source : gmap string jvalue) (key : string) :
  key <> "__proto__" ->
  own (assign config source) !! key
  = match source !! key with
    | Some v => Some v
    | None => own config !! key
    end.
Proof.
  intros Hkey.
  assert (Hbase : (delete "__proto__" source ∪ own config) !! key
                  = match source !! key with
                    | Some v => Some v
                    | None => own config !! key
                    end).
  { rewrite lookup_union, lookup_delete_ne by congruence.
    destruct (source !! key), (own config !! key); reflexivity. }
  unfold assign. cbv zeta.
  destruct (source !! "__proto__") as [v|]; [|exact Hbase].
  unfold assignProto, assignOwn, setPrototypeOf. cbn [own proto].
  destruct ((delete "__proto__" source ∪ own config) !! "__proto__").
  - cbn [own]. rewrite lookup_insert_ne by congruence. exact Hbase.
  - destruct (reachesAccessor (proto config)).
    + destruct v; exact Hbase.
    + cbn [own]. rewrite lookup_insert_ne by congruence. exact Hbase.
Qed.



(** What the two files give as own properties, the project's over the
    user's. *)
Lemma loadFiles_layers (e : gmap string string) (directory : string) (key : string) :
  key <> "__proto__" ->
  own (loadFiles files (configPaths join e directory) (mkConfig ∅ ObjectPrototype)) !! key
  = fromFiles join files e directory key.
Proof.
  intros Hkey. unfold loadFiles, configPaths, fromFiles, fileConfig. cbn [fold_left].
  destruct (files (join [homeDir e; ".config"; "opencode"; "telegram.json"])) as [|home];
    destruct (files (join [directory; ".opencode"; "telegram.json"])) as [|project];
    rewrite ?own_assign by exact Hkey; cbn [own]; rewrite ?lookup_empty;
    try reflexivity.
  - destruct (home !! key); reflexivity.
  - destruct (project !! key), (home !! key); reflexivity.
Qed.



Lemma overrideText_own (e : gmap string string) (name key key' : string)
  (config : BotConfig) :
  own (overrideText e name key config) !! key'
  = if String.eqb key key' then
      match envVar e name with
      | Some v => Some (JText v)
      | None => own config !! key'
      end
    else own config !! key'.
Proof.
  unfold overrideText, assignOwn. destruct (String.eqb_spec key key') as [->|Hne].
  - destruct (envVar e name); [apply lookup_insert_eq|reflexivity].
  - destruct (envVar e name); [apply lookup_insert_ne; exact Hne|reflexivity].
Qed.

Lemma overrideThread_own (e : gmap string string) (key' : string)
  (config : BotConfig) :
  own (overrideThread e config) !! key'
  = if String.eqb "threadId" key' then
      match envVar e "TELEGRAM_THREAD_ID" with
      | Some v => if Number_isNaN (Number v) then own config !! key'
                  else Some (JNumber (Number v))
      | None => own config !! key'
      end
    else own config !! key'.
Proof.
  unfold overrideThread, assignOwn. destruct (String.eqb_spec "threadId" key') as [<-|Hne].
  - destruct (envVar e "TELEGRAM_THREAD_ID") as [v|]; [|reflexivity].
    destruct (Number_isNaN (Number v)); [reflexivity|apply lookup_insert_eq].
  - destruct (envVar e "TELEGRAM_THREAD_ID") as [v|]; [|reflexivity].
    destruct (Number_isNaN (Number v)); [reflexivity|].
    apply lookup_insert_ne. exact Hne.
Qed.




Lemma read_own (config : BotConfig) (f : Field) (v : jvalue) :
  own config !! fieldName f = Some v -> read config f = Some v.
Proof. intros H. unfold read. rewrite H. reflexivity. Qed.

(** X15. The environment wins: a variable among [TELEGRAM_BOT_TOKEN],
    [TELEGRAM_CHAT_ID], [TELEGRAM_UPDATES_URL] and [TELEGRAM_SEND_URL]
    that is set and not empty is the value of its property in the
    configuration returned, as a string, whatever the files say: it is
    an own property of the object, and what reading the property
    gives. *)
Theorem environment_overrides_files
  (e : gmap string string) (directory key name v : string) :
  overridingVar key = Some name ->
  e !! name = Some v ->
  v <> "" ->
  own (loadConfig join files e directory) !! key = Some (JText v)
  /\ forall f, fieldName f = key ->
               read (loadConfig join files e directory) f = Some (JText v).
Proof.
  intros Hkey Hname Hv.
  assert (Henv : envVar e name = Some v).
  { unfold envVar, truthy_string. rewrite Hname.
    destruct (String.eqb_spec v ""); [contradiction|reflexivity]. }
  assert (Hown : own (loadConfig join files e directory) !! key = Some (JText v)).
  { unfold loadConfig. cbv zeta.
    repeat (rewrite overrideText_own || rewrite overrideThread_own).
    unfold overridingVar in Hkey.
    destruct (String.eqb_spec key "botToken") as [->|_];
      [inversion Hkey; subst name; simpl; rewrite Henv; reflexivity|].
    destruct (String.eqb_spec key "chatId") as [->|_];
      [inversion Hkey; subst name; simpl; rewrite Henv; reflexivity|].
    destruct (String.eqb_spec key "updatesUrl") as [->|_];
      [inversion Hkey; subst name; simpl; rewrite Henv; reflexivity|].
    destruct (String.eqb_spec key "sendUrl") as [->|_]; [|discriminate].
    inversion Hkey; subst name. simpl. rewrite Henv. reflexivity. }
  split; [exact Hown|].
  intros f Hf. apply read_own. rewrite Hf. exact Hown.
Qed.


Lemma fieldName_not_proto (f : Field) : fieldName f <> "__proto__".
Proof. destruct f; discriminate. Qed.


(** X17. The thread id of the environment is taken as a number, and only
    if it is one: with [TELEGRAM_THREAD_ID] set and not empty,
    [threadId] is [Number] of the variable unless that is [NaN], in
    which case the variable is ignored and the files decide. *)
Theorem thread_id_from_environment_must_be_numeric
  (e : gmap string string) (directory v : string) :
  e !! "TELEGRAM_THREAD_ID" = Some v ->
  v <> "" ->
  own (loadConfig join files e directory) !! "threadId"
  = (if Number_isNaN (Number v) then fromFiles join files e directory "threadId"
     else Some (JNumber (Number v)))
  /\ read (loadConfig join files e directory) threadId
     = (if Number_isNaN (Number v) then
          match fromFiles join files e directory "threadId" with
          | Some fromFile => Some fromFile
          | None => inherited (proto (loadConfig join files e directory)) threadId
          end
        else Some (JNumber (Number v))).
Proof.
  intros Hset Hv.
  assert (Henv : envVar e "TELEGRAM_THREAD_ID" = Some v).
  { unfold envVar, truthy_string. rewrite Hset.
    destruct (String.eqb_spec v ""); [contradiction|reflexivity]. }
  assert (Hown : own (loadConfig join files e directory) !! "threadId"
                 = (if Number_isNaN (Number v)
                    then fromFiles join files e directory "threadId"
                    else Some (JNumber (Number v)))).
  { unfold loadConfig. cbv zeta.
    repeat (rewrite overrideText_own || rewrite overrideThread_own).
    rewrite (loadFiles_layers e directory "threadId") by discriminate.
    simpl. rewrite Henv. reflexivity. }
  split; [exact Hown|].
  unfold read. change (fieldName threadId) with "threadId". rewrite Hown.
  destruct (Number_isNaN (Number v)); reflexivity.
Qed.

End ConfigFacts.

(** ** Properties of the mock update server *)

Section MockFacts.

Import Mock.

Local Open Scope list_scope.

Variable Payload : Type.

Lemma insertUpdate_perm (u : TelegramUpdate Payload) (l : list (TelegramUpdate Payload)) :
  Permutation (insertUpdate u l) (u :: l).
Proof.
  induction l as [|v l IH]; simpl; [reflexivity|].
  destruct (update_id u <=? update_id v); [reflexivity|].
  rewrite IH. apply perm_swap.
Qed.

Lemma sortUpdates_perm (l : list (TelegramUpdate Payload)) : Permutation (sortUpdates l) l.
Proof.
  induction l as [|u l IH]; simpl; [reflexivity|].
  rewrite insertUpdate_perm. constructor. exact IH.
Qed.

Lemma ascending_cons (u : TelegramUpdate Payload) (l : list (TelegramUpdate Payload)) :
  ascending (u :: l)
  <-> ascending l /\ Forall (fun v => update_id u <= update_id v) l.
Proof.
  unfold ascending, ids. simpl. split.
  - intros H. inversion H as [|? ? Hs Hall]; subst. split; [exact Hs|].
    rewrite Forall_map in Hall. exact Hall.
  - intros [Hs Hall]. constructor; [exact Hs|].
    rewrite Forall_map. exact Hall.
Qed.

Lemma insertUpdate_ascending (u : TelegramUpdate Payload) (l : list (TelegramUpdate Payload)) :
  ascending l -> ascending (insertUpdate u l).
Proof.
  induction l as [|v l IH]; intros Hs; simpl.
  - apply ascending_cons. split; [exact Hs|constructor].
  - destruct (Z.leb_spec (update_id u) (update_id v)) as [Hle|Hgt].
    + apply ascending_cons. split; [exact Hs|].
      apply ascending_cons in Hs as [_ Hall]. constructor; [exact Hle|].
      eapply Forall_impl; [exact Hall|]. simpl. intros; lia.
    + apply ascending_cons in Hs as [Hs Hall].
      apply ascending_cons. split; [apply IH; exact Hs|].
      rewrite (insertUpdate_perm u l). constructor; [lia|exact Hall].
Qed.

Lemma sortUpdates_ascending (l : list (TelegramUpdate Payload)) : ascending (sortUpdates l).
Proof.
  induction l as [|u l IH]; simpl; [constructor|].
  apply insertUpdate_ascending. exact IH.
Qed.

Lemma insertUpdate_front (u : TelegramUpdate Payload) (l : list (TelegramUpdate Payload)) :
  Forall (fun v => update_id u <= update_id v) l -> insertUpdate u l = u :: l.
Proof.
  destruct l as [|v l]; [reflexivity|]. intros H. inversion H; subst. simpl.
  destruct (Z.leb_spec (update_id u) (update_id v)); [reflexivity|lia].
Qed.

Lemma filter_all {A} (f : A -> bool) (l : list A) :
  Forall (fun x => f x = true) l -> List.filter f l = l.
Proof.
  induction 1 as [|x l Hx _ IH]; simpl; [reflexivity|]. rewrite Hx, IH. reflexivity.
Qed.

Lemma filter_none {A} (f : A -> bool) (l : list A) :
  Forall (fun x => f x = false) l -> List.filter f l = [].
Proof.
  induction 1 as [|x l Hx _ IH]; simpl; [reflexivity|]. rewrite Hx, IH. reflexivity.
Qed.

(** Sorting after appending to a sorted list puts the new update after
    those of an id not above its own. *)
Lemma sort_after_push (u : TelegramUpdate Payload) (l : list (TelegramUpdate Payload)) :
  ascending l ->
  sortUpdates (l ++ [u])
  = List.filter (fun v => update_id v <=? update_id u) l
    ++ u :: List.filter (newer (update_id u)) l.
Proof.
  unfold sortUpdates. rewrite foldr_app. simpl.
  induction l as [|a l IH]; intros Hs; [reflexivity|].
  apply ascending_cons in Hs as [Hs Hall]. simpl. rewrite (IH Hs).
  unfold newer at 2.
  destruct (Z.leb_spec (update_id a) (update_id u)) as [Hle|Hgt].
  - destruct (Z.ltb_spec (update_id u) (update_id a)); [lia|].
    apply insertUpdate_front. apply Forall_app. split.
    + apply List.Forall_forall. intros v Hv. apply filter_In in Hv as [Hv _].
      rewrite List.Forall_forall in Hall. apply Hall, Hv.
    + constructor; [exact Hle|].
      apply List.Forall_forall. intros v Hv. apply filter_In in Hv as [Hv _].
      rewrite List.Forall_forall in Hall. apply Hall, Hv.
  - destruct (Z.ltb_spec (update_id u) (update_id a)); [|lia].
    rewrite (filter_none (fun v => update_id v <=? update_id u) l).
    2:{ eapply Forall_impl; [exact Hall|]. simpl. intros v Hv.
        apply Z.leb_gt. lia. }
    rewrite (filter_all (newer (update_id u)) l).
    2:{ eapply Forall_impl; [exact Hall|]. simpl. intros v Hv.
        apply Z.ltb_lt. lia. }
    simpl. destruct (Z.leb_spec (update_id a) (update_id u)); [lia|].
    rewrite insertUpdate_front by exact Hall. reflexivity.
Qed.

Lemma sorted_cons (R : Z -> Z -> Prop) (u : TelegramUpdate Payload)
  (l : list (TelegramUpdate Payload)) :
  StronglySorted R (ids (u :: l))
  <-> StronglySorted R (ids l) /\ Forall (fun v => R (update_id u) (update_id v)) l.
Proof.
  unfold ids. simpl. split.
  - intros H. inversion H as [|? ? Hs Hall]; subst. split; [exact Hs|].
    rewrite Forall_map in Hall. exact Hall.
  - intros [Hs Hall]. constructor; [exact Hs|].
    rewrite Forall_map. exact Hall.
Qed.

Lemma sorted_filter (R : Z -> Z -> Prop) (f : TelegramUpdate Payload -> bool)
  (l : list (TelegramUpdate Payload)) :
  StronglySorted R (ids l) -> StronglySorted R (ids (List.filter f l)).
Proof.
  induction l as [|u l IH]; intros Hs; [exact Hs|].
  apply sorted_cons in Hs as [Hs Hall]. simpl.
  destruct (f u); [|apply IH; exact Hs].
  apply sorted_cons. split; [apply IH; exact Hs|].
  apply List.Forall_forall. intros v Hv. apply filter_In in Hv as [Hv _].
  rewrite List.Forall_forall in Hall. apply Hall, Hv.
Qed.

(** A sorted list cut after [u]: what is before is not above [u], what
    is after is not below. *)
Lemma sorted_cut (R : Z -> Z -> Prop) (a : list (TelegramUpdate Payload))
  (u : TelegramUpdate Payload) (b : list (TelegramUpdate Payload)) :
  StronglySorted R (ids (a ++ u :: b)) ->
  Forall (fun v => R (update_id v) (update_id u)) a
  /\ Forall (fun v => R (update_id u) (update_id v)) b.
Proof.
  induction a as [|x a IH]; intros Hs.
  - apply sorted_cons in Hs as [_ Hall]. split; [constructor|exact Hall].
  - simpl in Hs. apply sorted_cons in Hs as [Hs Hall].
    destruct (IH Hs) as [Ha Hb]. split; [|exact Hb].
    constructor; [|exact Ha].
    rewrite List.Forall_forall in Hall. apply Hall.
    apply in_or_app. right. left. reflexivity.
Qed.

Lemma last_Some_snoc {A} (l : list A) (x : A) :
  last l = Some x -> exists l', l = l' ++ [x].
Proof.
  destruct l as [|y l] using rev_ind; [discriminate|].
  rewrite last_snoc. intros [= ->]. eauto.
Qed.

Lemma filter_newer_twice (since m : Z) (l : list (TelegramUpdate Payload)) :
  since <= m ->
  List.filter (newer m) (List.filter (newer since) l) = List.filter (newer m) l.
Proof.
  intros Hle. induction l as [|u l IH]; [reflexivity|]. simpl.
  destruct (newer since u) eqn:E1; destruct (newer m u) eqn:E2; simpl;
    rewrite ?E2, ?IH; try reflexivity.
  unfold newer in E1, E2. apply Z.ltb_ge in E1. apply Z.ltb_lt in E2. lia.
Qed.

Lemma filter_newer_all (since : Z) (l : list (TelegramUpdate Payload)) :
  Forall (fun u => since < update_id u) (List.filter (newer since) l).
Proof.
  apply List.Forall_forall. intros u Hu. apply filter_In in Hu as [_ Hu].
  apply Z.ltb_lt. exact Hu.
Qed.

Lemma getNextUpdates_empty (since : Z) (limit : nat) (s : Server Payload) :
  firstn limit (List.filter (newer since) (updates s)) = [] ->
  getNextUpdates since limit s = ([], s).
Proof.
  intros H. unfold getNextUpdates. cbv zeta. rewrite H. reflexivity.
Qed.

Lemma getNextUpdates_served (since : Z) (limit : nat) (s : Server Payload)
  (a : list (TelegramUpdate Payload)) (u : TelegramUpdate Payload) :
  firstn limit (List.filter (newer since) (updates s)) = a ++ [u] ->
  getNextUpdates since limit s
  = (a ++ [u], {| updates := updates s; lastServedUpdateId := update_id u |}).
Proof.
  intros H. unfold getNextUpdates. cbv zeta. rewrite H, last_snoc. reflexivity.
Qed.

Lemma getNextUpdates_cases (since : Z) (limit : nat) (s : Server Payload) :
  (firstn limit (List.filter (newer since) (updates s)) = []
   /\ getNextUpdates since limit s = ([], s))
  \/ exists a u,
       firstn limit (List.filter (newer since) (updates s)) = a ++ [u]
       /\ getNextUpdates since limit s
          = (a ++ [u], {| updates := updates s; lastServedUpdateId := update_id u |}).
Proof.
  destruct (last (firstn limit (List.filter (newer since) (updates s)))) as [u|] eqn:Hl.
  - right. apply last_Some_snoc in Hl as [a Ha]. exists a, u.
    split; [exact Ha|apply getNextUpdates_served, Ha].
  - left. apply last_None in Hl. split; [exact Hl|apply getNextUpdates_empty, Hl].
Qed.

(** X18. A poll serves the oldest pending updates.  In a store sorted by
    id, [getNextUpdates(since, limit)] with a positive limit returns an
    initial piece of the updates newer than [since], at most [limit] of
    them and exactly [limit] if any is held back; every update served
    has an id above [since] and not above the [lastServedUpdateId] the
    call leaves, and every update held back has an id not below it. *)
Theorem poll_serves_oldest_pending
  (since : Z) (limit : nat) (s : Server Payload) :
  ascending (updates s) ->
  (0 < limit)%nat ->
  let (batch, s') := getNextUpdates since limit s in
  exists rest,
    List.filter (newer since) (updates s) = batch ++ rest
    /\ (length batch <= limit)%nat
    /\ (rest <> [] -> length batch = limit)
    /\ Forall (fun u => since < update_id u <= lastServedUpdateId s') batch
    /\ Forall (fun u => lastServedUpdateId s' <= update_id u) rest
    /\ updates s' = updates s.
Proof.
  intros Hs Hlimit.
  pose proof (firstn_skipn limit (List.filter (newer since) (updates s))) as Hsplit.
  pose proof (filter_newer_all since (updates s)) as Hnew.
  apply (sorted_filter Z.le (newer since)) in Hs.
  destruct (getNextUpdates_cases since limit s) as [[He ->]|(a & u & He & ->)].
  - exists []. destruct (List.filter (newer since) (updates s)) as [|x f] eqn:Hf.
    + repeat split; simpl; try constructor; try lia. congruence.
    + destruct limit; [lia|discriminate].
  - exists (skipn limit (List.filter (newer since) (updates s))).
    rewrite <- He. split; [symmetry; exact Hsplit|].
    split; [rewrite length_firstn; lia|].
    split.
    { intros Hrest. rewrite length_firstn.
      destruct (Nat.le_gt_cases limit (length (List.filter (newer since) (updates s))))
        as [Hle|Hgt]; [lia|].
      rewrite skipn_all2 in Hrest by lia. contradiction. }
    rewrite <- Hsplit, He in Hs, Hnew. rewrite <- app_assoc in Hs. simpl in Hs.
    apply sorted_cut in Hs as [Ha Hb]. cbn [lastServedUpdateId updates].
    apply Forall_app in Hnew as [Hnew _]. rewrite He.
    split; [|split; [exact Hb|reflexivity]].
    apply Forall_app in Hnew as [Hna Hnu]. apply Forall_app. split.
    + apply List.Forall_forall. intros v Hv.
      rewrite List.Forall_forall in Ha, Hna. split; [apply Hna, Hv|apply Ha, Hv].
    + constructor; [|constructor]. inversion Hnu; subst. lia.
Qed.

(** X19. Polling again from the last id served skips nothing and repeats
    nothing.  In a store whose ids increase strictly, after a poll that
    served something the updates newer than [since] are the batch
    followed by exactly the updates newer than [lastServedUpdateId]. *)
Theorem consecutive_polls_partition
  (since : Z) (limit : nat) (s : Server Payload) :
  strictly_ascending (updates s) ->
  fst (getNextUpdates since limit s) <> [] ->
  List.filter (newer since) (updates s)
  = fst (getNextUpdates since limit s)
    ++ List.filter (newer (lastServedUpdateId (snd (getNextUpdates since limit s))))
         (updates (snd (getNextUpdates since limit s))).
Proof.
  intros Hs Hne.
  pose proof (firstn_skipn limit (List.filter (newer since) (updates s))) as Hsplit.
  pose proof (filter_newer_all since (updates s)) as Hnew.
  apply (sorted_filter Z.lt (newer since)) in Hs.
  destruct (getNextUpdates_cases since limit s) as [[He Hg]|(a & u & He & Hg)];
    rewrite Hg in *; [contradiction|].
  cbn [fst snd lastServedUpdateId updates].
  rewrite <- Hsplit, He in Hs, Hnew. rewrite <- app_assoc in Hs. simpl in Hs.
  apply sorted_cut in Hs as [Ha Hb].
  assert (Hu : since <= update_id u).
  { apply Forall_app in Hnew as [Hnew _]. apply Forall_app in Hnew as [_ Hnu].
    inversion Hnu; subst. lia. }
  rewrite <- (filter_newer_twice since (update_id u)) by exact Hu.
  rewrite <- Hsplit at 2. rewrite He, !List.filter_app.
  rewrite (filter_none (newer (update_id u)) a).
  2:{ eapply Forall_impl; [exact Ha|]. simpl. intros v Hv. apply Z.ltb_ge. lia. }
  simpl. unfold newer at 2. rewrite Z.ltb_irrefl.
  rewrite (filter_all (newer (update_id u))).
  2:{ eapply Forall_impl; [exact Hb|]. simpl. intros v Hv. apply Z.ltb_lt. exact Hv. }
  rewrite <- He. symmetry. exact Hsplit.
Qed.

(** X20. An accepted injection keeps the store sorted and puts the new
    update after the stored ones of the same or a smaller id.  For a
    body with a payload and an id other than 0, [inject] on a store
    sorted by id answers with the new number of updates, leaves
    [lastServedUpdateId] alone, and the store becomes: the updates of an
    id not above the new one, the new update, the updates above it. *)
Theorem injection_lands_after_its_equals
  (body : Body Payload) (s : Server Payload) (id : Z) (p : Payload) :
  ascending (updates s) ->
  body_update_id body = Some id ->
  id <> 0 ->
  body_payload body = Some p ->
  let update := {| update_id := id; chat_id := body_chat_id body; payload := p |} in
  inject body s
  = (Injected (S (length (updates s))),
     {| updates := List.filter (fun v => update_id v <=? id) (updates s)
                   ++ update :: List.filter (newer id) (updates s);
        lastServedUpdateId := lastServedUpdateId s |}).
Proof.
  intros Hs Hid Hnz Hp update. unfold inject. rewrite Hid, Hp.
  destruct (Z.eqb_spec id 0) as [|_]; [contradiction|]. cbv zeta.
  fold update.
  rewrite (Permutation_length (sortUpdates_perm _)), length_app, Nat.add_1_r.
  rewrite (sort_after_push update (updates s) Hs). reflexivity.
Qed.

Lemma serve_perm (s : Server Payload) (r : Request Payload) :
  Permutation (updates (serve s r)) (updates s ++ accepted r).
Proof.
  destruct r as [since|body|]; simpl.
  - rewrite app_nil_r.
    destruct (getNextUpdates_cases since defaultLimit s) as [[_ ->]|(a & u & _ & ->)];
      reflexivity.
  - unfold inject.
    destruct (body_update_id body) as [id|]; [|rewrite app_nil_r; reflexivity].
    destruct (body_payload body) as [p|]; [|rewrite app_nil_r; reflexivity].
    destruct (id =? 0); [rewrite app_nil_r; reflexivity|].
    apply sortUpdates_perm.
  - rewrite app_nil_r. reflexivity.
Qed.

Lemma serve_ascending (s : Server Payload) (r : Request Payload) :
  ascending (updates s) -> ascending (updates (serve s r)).
Proof.
  intros Hs. destruct r as [since|body|]; simpl.
  - destruct (getNextUpdates_cases since defaultLimit s) as [[_ ->]|(a & u & _ & ->)];
      exact Hs.
  - unfold inject.
    destruct (body_update_id body) as [id|]; [|exact Hs].
    destruct (body_payload body) as [p|]; [|exact Hs].
    destruct (id =? 0); [exact Hs|].
    apply sortUpdates_ascending.
  - exact Hs.
Qed.

(** X21. The store is always sorted and loses nothing.  After the
    fixtures are loaded and any sequence of polls, injections and resets
    is served, the stored updates are in ascending order of id, and they
    are the fixtures and the accepted injections, each once. *)
Theorem store_sorted_and_complete
  (fixtures : list (TelegramUpdate Payload)) (requests : list (Request Payload)) :
  let s := fold_left serve requests (loadFixtures fixtures) in
  ascending (updates s)
  /\ Permutation (updates s) (fixtures ++ flat_map accepted requests).
Proof.
  cbv zeta.
  assert (Hgen : forall (rs : list (Request Payload)) (s : Server Payload)
                   (base : list (TelegramUpdate Payload)),
             ascending (updates s) -> Permutation (updates s) base ->
             ascending (updates (fold_left serve rs s))
             /\ Permutation (updates (fold_left serve rs s))
                  (base ++ flat_map accepted rs)).
  { induction rs as [|r rs IH]; intros s base Hs Hp; simpl.
    - rewrite app_nil_r. split; [exact Hs|exact Hp].
    - rewrite app_assoc. apply IH; [apply serve_ascending, Hs|].
      rewrite serve_perm, Hp. reflexivity. }
  apply Hgen; [apply sortUpdates_ascending|apply sortUpdates_perm].
Qed.

End MockFacts.

(** ** The properties above at the examples *)

Lemma escapeMarkdown_escapes_every_special_witness :
  forallb (fun c => negb (Format.special c)) (JS.lit "plain text") = true
  /\ Format.escapeMarkdown (JS.lit "plain text") = JS.lit "plain text".
Proof.
  split; [reflexivity|].
  apply (proj2 (proj2 (escapeMarkdown_escapes_every_special (JS.lit "plain text")))).
  reflexivity.
Defined.

Lemma escapeMarkdown_lossless_witness :
  Format.escapeMarkdown (JS.lit "a_b") = Format.escapeMarkdown (JS.lit "a_b")
  /\ JS.lit "a_b" = JS.lit "a_b".
Proof.
  split; [reflexivity|].
  apply (proj2 escapeMarkdown_lossless (JS.lit "a_b") (JS.lit "a_b")). reflexivity.
Defined.

Lemma read_summary_names_last_segment_witness :
  Format.field (Format.input demo_read) "filePath" = (JS.lit "src" ++ 47%N :: JS.lit "a_b.ts")%list
  /\ JS.includes 47%N (JS.lit "a_b.ts") = false
  /\ Format.getToolSummaryText (Format.ToolPart (JS.lit "read") demo_read)
     = JS.lit "*a\_b.ts*".
Proof.
  split; [reflexivity|]. split; [reflexivity|].
  apply (proj1 (read_summary_names_last_segment demo_read) (JS.lit "src") (JS.lit "a_b.ts"));
    reflexivity.
Defined.

Lemma edit_summary_counts_line_feeds_witness :
  Format.input demo_edit = ∅
  /\ Format.getToolSummaryText (Format.ToolPart (JS.lit "edit") demo_edit)
     = JS.lit "(+1-1)".
Proof.
  split; [reflexivity|].
  apply (proj2 (edit_summary_counts_line_feeds demo_edit)). reflexivity.
Defined.

Lemma webfetch_summary_drops_protocol_witness :
  Format.field (Format.input demo_webfetch) "url"
  = (JS.lit "https://" ++ JS.lit "example.com/a_b")%list
  /\ Format.getToolSummaryText (Format.ToolPart (JS.lit "webfetch") demo_webfetch)
     = JS.lit "*example.com/a\_b*".
Proof.
  split; [reflexivity|].
  apply (webfetch_summary_drops_protocol demo_webfetch (JS.lit "example.com/a_b")).
  right. reflexivity.
Defined.

Lemma todo_list_shows_first_in_progress_witness :
  Format.todos demo_todos
  = Some ([Format.mkTodo (JS.lit "Plan") (JS.lit "completed")]
          ++ Format.mkTodo (JS.lit "Build it") (JS.lit "in_progress")
             :: [Format.mkTodo (JS.lit "Ship") (JS.lit "in_progress")])%list
  /\ Format.formatPart lowerAscii (Format.ToolPart (JS.lit "todowrite") demo_todos)
     = JS.lit "2. *build it*".
Proof.
  split; [reflexivity|].
  apply (proj1 (todo_list_shows_first_in_progress lowerAscii demo_todos)
           [Format.mkTodo (JS.lit "Plan") (JS.lit "completed")]
           (Format.mkTodo (JS.lit "Build it") (JS.lit "in_progress"))
           [Format.mkTodo (JS.lit "Ship") (JS.lit "in_progress")]);
    reflexivity.
Defined.

Lemma tool_line_begins_with_mark_and_name_witness :
  JS.isSpace 104%N = false
  /\ Format.status demo_bash <> Format.Pending
  /\ exists tail,
       Format.formatPart lowerAscii (Format.ToolPart (JS.lit "bas" ++ [104%N])%list demo_bash)
       = (JS.lit "> " ++ (JS.lit "bas" ++ [104%N]) ++ tail)%list
       /\ forall d,
            last (Format.formatPart lowerAscii
                    (Format.ToolPart (JS.lit "bas" ++ [104%N])%list demo_bash)) = Some d ->
            JS.isSpace d = false.
Proof.
  split; [reflexivity|]. split; [discriminate|].
  apply (tool_line_begins_with_mark_and_name lowerAscii (JS.lit "bas") 104%N demo_bash);
    [reflexivity|reflexivity|reflexivity|discriminate].
Defined.

Lemma bash_line_prefers_short_command_witness :
  Format.status demo_bash = Format.Running
  /\ (length (Format.field (Format.input demo_bash) "command") <= 50)%nat
  /\ Format.formatPart lowerAscii (Format.ToolPart (JS.lit "bash") demo_bash)
     = JS.lit "> bash _ls -la_".
Proof.
  split; [reflexivity|]. split; [vm_compute; lia|].
  apply (proj1 (bash_line_prefers_short_command lowerAscii demo_bash (or_introl eq_refl)));
    [reflexivity|vm_compute; lia].
Defined.

Lemma environment_overrides_files_witness :
  Config.overridingVar "botToken" = Some "TELEGRAM_BOT_TOKEN"
  /\ demo_config_env !! "TELEGRAM_BOT_TOKEN" = Some "env-token"
  /\ Config.fileConfig demo_files "/home/u/.config/opencode/telegram.json" !! "botToken"
     = Some (Config.JText "home-token")
  /\ Config.own (Config.loadConfig demo_join demo_files demo_config_env "/proj")
       !! "botToken"
     = Some (Config.JText "env-token")
  /\ Config.read (Config.loadConfig demo_join demo_files demo_config_env "/proj")
       Config.botToken
     = Some (Config.JText "env-token").
Proof.
  split; [reflexivity|]. split; [reflexivity|]. split; [reflexivity|].
  destruct (environment_overrides_files demo_join demo_files demo_config_env "/proj"
              "botToken" "TELEGRAM_BOT_TOKEN" "env-token" eq_refl eq_refl
              ltac:(discriminate)) as [Hown Hread].
  split; [exact Hown|]. exact (Hread Config.botToken eq_refl).
Defined.


Lemma thread_id_from_environment_must_be_numeric_witness :
  demo_config_env !! "TELEGRAM_THREAD_ID" = Some "12"
  /\ Config.own (Config.loadConfig demo_join demo_files demo_config_env "/proj")
       !! "threadId"
     = Some (Config.JNumber (Some 12))
  /\ Config.read (Config.loadConfig demo_join demo_files demo_config_env "/proj")
       Config.threadId
     = Some (Config.JNumber (Some 12)).
Proof.
  split; [reflexivity|].
  exact (thread_id_from_environment_must_be_numeric demo_join demo_files
           demo_config_env "/proj" "12" eq_refl ltac:(discriminate)).
Defined.

Lemma poll_serves_oldest_pending_witness :
  Mock.ascending (Mock.updates demo_store)
  /\ (0 < 2)%nat
  /\ let (batch, s') := Mock.getNextUpdates 0 2 demo_store in
     exists rest,
       List.filter (Mock.newer 0) (Mock.updates demo_store) = (batch ++ rest)%list
       /\ (length batch <= 2)%nat
       /\ (rest <> [] -> length batch = 2%nat)
       /\ Forall (fun u => 0 < Mock.update_id u <= Mock.lastServedUpdateId s') batch
       /\ Forall (fun u => Mock.lastServedUpdateId s' <= Mock.update_id u) rest
       /\ Mock.updates s' = Mock.updates demo_store.
Proof.
  assert (Hs : Mock.ascending (Mock.updates demo_store)).
  { unfold Mock.ascending. simpl. repeat constructor; lia. }
  split; [exact Hs|]. split; [lia|].
  apply (poll_serves_oldest_pending string 0 2 demo_store Hs). lia.
Defined.

Lemma consecutive_polls_partition_witness :
  Mock.strictly_ascending (Mock.updates demo_store)
  /\ List.filter (Mock.newer 0) (Mock.updates demo_store)
     = ([demo_update 1; demo_update 2]
        ++ List.filter (Mock.newer 2) (Mock.updates demo_store))%list.
Proof.
  assert (Hs : Mock.strictly_ascending (Mock.updates demo_store)).
  { unfold Mock.strictly_ascending. simpl. repeat constructor; lia. }
  split; [exact Hs|].
  apply (consecutive_polls_partition string 0 2 demo_store Hs). discriminate.
Defined.

Lemma injection_lands_after_its_equals_witness :
  Mock.ascending (Mock.updates demo_store)
  /\ Mock.updates (snd (Mock.inject demo_body demo_store))
     = [ demo_update 1; demo_update 2;
         {| Mock.update_id := 2; Mock.chat_id := Some "-100"; Mock.payload := "again" |};
         demo_update 3 ].
Proof.
  assert (Hs : Mock.ascending (Mock.updates demo_store)).
  { unfold Mock.ascending. simpl. repeat constructor; lia. }
  split; [exact Hs|].
  rewrite (injection_lands_after_its_equals string demo_body demo_store 2 "again" Hs
             eq_refl ltac:(discriminate) eq_refl).
  reflexivity.
Defined.
